(** * Snake game (src/snake_game.py): model of the simulation core

    The Python module keeps the snake, the food and two flags in globals
    and advances them once per frame of its [while running] loop.  Here the
    classes [Snake] and [Food] become modules with a record each, the
    globals become one [Session] record, and a frame of the loop becomes a
    function on sessions.  Positions are the pixel coordinates the source
    stores (a segment is [SNAKE_BLOCK_SIZE] pixels wide); Python integers
    are unbounded, hence [Z].  Drawing, fonts and the clock are left out:
    they read the state and never write it. *)

From Stdlib Require Import ZArith List Bool Lia.
Import ListNotations.
Local Open Scope Z_scope.

(** ** Constants (lines 8-9 and 23-24 of the source) *)

Definition screen_width : Z := 800.
Definition screen_height : Z := 600.
Definition SNAKE_BLOCK_SIZE : Z := 20.
Definition FOOD_BLOCK_SIZE : Z := 20.

(** ** Points: Python 2-tuples of integers *)

Definition point : Type := Z * Z.

(** [==] on two tuples of integers. *)
Definition point_eqb (p q : point) : bool :=
  (fst p =? fst q) && (snd p =? snd q).

(** [p in l] for a list of tuples. *)
Fixpoint point_in (p : point) (l : list point) : bool :=
  match l with
  | [] => false
  | q :: rest => point_eqb p q || point_in p rest
  end.

(** ** Outcomes

    A call either returns, raises [IndexError] (indexing an empty list), or
    is still inside the [while True] loop of [Food.randomize_position] when
    the iteration budget given to the model is used up. *)

Inductive outcome (A : Type) : Type :=
| Done (a : A)
| IndexError
| Unfinished.

Arguments Done {A} a.
Arguments IndexError {A}.
Arguments Unfinished {A}.

Definition bind {A B : Type} (c : outcome A) (k : A -> outcome B) : outcome B :=
  match c with
  | Done a => k a
  | IndexError => IndexError
  | Unfinished => Unfinished
  end.

Notation "x <- c ;; k" := (bind c (fun x => k))
  (at level 61, c at next level, right associativity).
Notation "' pat <- c ;; k" := (bind c (fun x => match x with pat => k end))
  (at level 61, pat pattern, c at next level, right associativity).

(** ** The random source

    [random.randrange(0, n)] returns some integer of [0, n) and advances
    the generator.  The generator is a sequence of raw draws and a cursor
    into it; a draw is reduced modulo [n], so every sequence is a legal
    generator and every value of the range can come out. *)

Module Random.

Definition source : Type := nat -> Z.

Definition randrange (src : source) (stop : Z) (cur : nat) : Z * nat :=
  (src cur mod stop, S cur).

End Random.

(** ** class Snake *)

Module Snake.

(** The attributes set by [__init__]; [color] is a constant used by [draw]
    only and is left out. *)
Record t : Type := make {
  length : Z;
  positions : list point;
  direction : point;
  score : Z
}.

Definition init (x y : Z) : t :=
  {| length := 1; positions := [(x, y)]; direction := (1, 0); score := 0 |}.

Definition get_head_position (s : t) : outcome point :=
  match positions s with
  | [] => IndexError
  | h :: _ => Done h
  end.

(** [insert(0, new_head)] is a cons; [pop()] drops the last element. *)
Definition move (s : t) : outcome t :=
  ' (cur_x, cur_y) <- get_head_position s ;;
  let '(dx, dy) := direction s in
  let new_head := (cur_x + dx * SNAKE_BLOCK_SIZE,
                   cur_y + dy * SNAKE_BLOCK_SIZE) in
  let inserted := new_head :: positions s in
  Done {| length := length s;
          positions := if Z.of_nat (List.length inserted) >? length s
                       then removelast inserted
                       else inserted;
          direction := direction s;
          score := score s |}.

Definition grow (s : t) : t :=
  {| length := length s + 1;
     positions := positions s;
     direction := direction s;
     score := score s + 1 |}.

Definition check_collision_with_self (s : t) : outcome bool :=
  head <- get_head_position s ;;
  Done (point_in head (tl (positions s))).

Definition change_direction (s : t) (new_direction : point) : t :=
  if point_eqb (fst new_direction * -1, snd new_direction * -1) (direction s)
  then s
  else {| length := length s;
          positions := positions s;
          direction := new_direction;
          score := score s |}.

End Snake.

(** ** class Food *)

Module Food.

(** [position] is the only attribute besides the constant [color]. *)
Record t : Type := make { position : point }.

(** The cell drawn by one pass of the loop body, from the generator at
    cursor [cur]: two [randrange] calls, x first. *)
Definition sample (src : Random.source) (cur : nat) : point * nat :=
  let '(x, c1) := Random.randrange src (screen_width / FOOD_BLOCK_SIZE) cur in
  let '(y, c2) := Random.randrange src (screen_height / FOOD_BLOCK_SIZE) c1 in
  ((x * FOOD_BLOCK_SIZE, y * FOOD_BLOCK_SIZE), c2).

(** The [while True] loop; [fuel] bounds the number of passes.  The method
    overwrites [self.position] on every pass, so the food it leaves does
    not depend on the food it started from. *)
Fixpoint randomize_position (src : Random.source) (fuel : nat)
    (snake_positions : list point) (cur : nat) : outcome (t * nat) :=
  match fuel with
  | O => Unfinished
  | S fuel' =>
      let '(p, cur') := sample src cur in
      if negb (point_in p snake_positions)
      then Done ({| position := p |}, cur')
      else randomize_position src fuel' snake_positions cur'
  end.

Definition init (src : Random.source) (fuel : nat)
    (snake_positions : list point) (cur : nat) : outcome (t * nat) :=
  randomize_position src fuel snake_positions cur.

(** Every cell the two [randrange] calls can produce. *)
Definition grid_cells : list point :=
  flat_map
    (fun x => map (fun y => (Z.of_nat x * FOOD_BLOCK_SIZE,
                             Z.of_nat y * FOOD_BLOCK_SIZE))
                  (seq 0 (Z.to_nat (screen_height / FOOD_BLOCK_SIZE))))
    (seq 0 (Z.to_nat (screen_width / FOOD_BLOCK_SIZE))).

End Food.

(** ** The globals and the main loop *)

Record Session : Type := mkSession {
  snake : Snake.t;
  food : Food.t;
  game_active : bool;
  game_over_state : bool;
  running : bool;
  rng : nat   (* cursor of the random generator *)
}.

Definition set_snake (g : Session) (s : Snake.t) : Session :=
  mkSession s (food g) (game_active g) (game_over_state g) (running g) (rng g).

Definition set_running (g : Session) (b : bool) : Session :=
  mkSession (snake g) (food g) (game_active g) (game_over_state g) b (rng g).

(** [game_active = False; game_over_state = True] *)
Definition end_game (g : Session) : Session :=
  mkSession (snake g) (food g) false true (running g) (rng g).

(** [reset_game()]: a new snake, a new food, both flags; [running] is not
    touched. *)
Definition reset_game (src : Random.source) (fuel : nat) (run : bool)
    (cur : nat) : outcome Session :=
  let s := Snake.init (screen_width / 2 - SNAKE_BLOCK_SIZE / 2)
                      (screen_height / 2 - SNAKE_BLOCK_SIZE / 2) in
  ' (f, cur') <- Food.init src fuel (Snake.positions s) cur ;;
  Done (mkSession s f true false run cur').

(** Lines 186-190: the first [reset_game()] and [running = True]. *)
Definition startup (src : Random.source) (fuel : nat) (cur : nat)
    : outcome Session :=
  reset_game src fuel true cur.

Inductive key : Type := K_UP | K_DOWN | K_LEFT | K_RIGHT | K_q | K_r | K_other.

Inductive event : Type :=
| QUIT
| KEYDOWN (k : key)
| OTHER.

(** The body of the [for event] loop of the active branch (lines 196-206). *)
Definition active_event (g : Session) (e : event) : Session :=
  match e with
  | QUIT => set_running g false
  | KEYDOWN K_UP => set_snake g (Snake.change_direction (snake g) (0, -1))
  | KEYDOWN K_DOWN => set_snake g (Snake.change_direction (snake g) (0, 1))
  | KEYDOWN K_LEFT => set_snake g (Snake.change_direction (snake g) (-1, 0))
  | KEYDOWN K_RIGHT => set_snake g (Snake.change_direction (snake g) (1, 0))
  | _ => g
  end.

(** Line 214. *)
Definition on_screen (p : point) : bool :=
  let '(head_x, head_y) := p in
  (0 <=? head_x) && (head_x <? screen_width) &&
  (0 <=? head_y) && (head_y <? screen_height).

(** Lines 213-216. *)
Definition boundary_check (g : Session) : outcome Session :=
  head <- Snake.get_head_position (snake g) ;;
  Done (if negb (on_screen head) then end_game g else g).

(** Lines 220-222; [and] does not evaluate its right operand when
    [game_active] is false. *)
Definition self_check (g : Session) : outcome Session :=
  if game_active g then
    hit <- Snake.check_collision_with_self (snake g) ;;
    Done (if hit then end_game g else g)
  else Done g.

(** Lines 226-228. *)
Definition food_check (src : Random.source) (fuel : nat) (g : Session)
    : outcome Session :=
  if game_active g then
    head <- Snake.get_head_position (snake g) ;;
    if point_eqb head (Food.position (food g)) then
      let s := Snake.grow (snake g) in
      ' (f, cur') <- Food.randomize_position src fuel (Snake.positions s) (rng g) ;;
      Done (mkSession s f (game_active g) (game_over_state g) (running g) cur')
    else Done g
  else Done g.

(** The active branch of one frame (lines 195-228). *)
Definition active_frame (src : Random.source) (fuel : nat)
    (events : list event) (g : Session) : outcome Session :=
  let g0 := fold_left active_event events g in
  s <- Snake.move (snake g0) ;;
  g1 <- boundary_check (set_snake g0 s) ;;
  g2 <- self_check g1 ;;
  food_check src fuel g2.

(** The body of the [for event] loop of the game-over branch (lines
    250-257): the two [if]s on the key are independent. *)
Definition over_event (src : Random.source) (fuel : nat) (g : Session)
    (e : event) : outcome Session :=
  match e with
  | QUIT => Done (set_running g false)
  | KEYDOWN k =>
      let g1 := match k with K_q => set_running g false | _ => g end in
      match k with
      | K_r => reset_game src fuel (running g1) (rng g1)
      | _ => Done g1
      end
  | OTHER => Done g
  end.

Fixpoint over_events (src : Random.source) (fuel : nat)
    (events : list event) (g : Session) : outcome Session :=
  match events with
  | [] => Done g
  | e :: rest =>
      g' <- over_event src fuel g e ;;
      over_events src fuel rest g'
  end.

(** One pass of the body of [while running]. *)
Definition frame (src : Random.source) (fuel : nat) (events : list event)
    (g : Session) : outcome Session :=
  if game_active g
  then active_frame src fuel events g
  else over_events src fuel events g.

(** The sessions the program goes through: the one left by start-up, and
    the one left by a frame entered with [running] true. *)
Inductive reachable (src : Random.source) : Session -> Prop :=
| reach_startup : forall fuel cur g,
    startup src fuel cur = Done g -> reachable src g
| reach_frame : forall fuel events g g',
    reachable src g -> running g = true ->
    frame src fuel events g = Done g' -> reachable src g'.

(** ** Vocabulary of the statements *)

(** The grid cell a pixel position lies in. *)
Definition cell_of (p : point) : point :=
  (fst p / SNAKE_BLOCK_SIZE, snd p / SNAKE_BLOCK_SIZE).

(** Up, Down, Left, Right as the main loop passes them. *)
Definition cardinal (d : point) : Prop :=
  d = (0, -1) \/ d = (0, 1) \/ d = (-1, 0) \/ d = (1, 0).

Definition opposite (d : point) : point := (- fst d, - snd d).

Definition body_length (s : Snake.t) : Z :=
  Z.of_nat (List.length (Snake.positions s)).

(** Calls on a snake object, in any order. *)
Inductive call : Type :=
| CallMove
| CallGrow
| CallChangeDirection (d : point).

Definition do_call (s : Snake.t) (c : call) : outcome Snake.t :=
  match c with
  | CallMove => Snake.move s
  | CallGrow => Done (Snake.grow s)
  | CallChangeDirection d => Done (Snake.change_direction s d)
  end.

Fixpoint do_calls (s : Snake.t) (cs : list call) : outcome Snake.t :=
  match cs with
  | [] => Done s
  | c :: rest => s' <- do_call s c ;; do_calls s' rest
  end.

(** The discipline of the main loop: direction changes at will, and per
    frame one [move], followed by [grow] or not. *)
Inductive in_play : Snake.t -> Prop :=
| play_new : forall x y, in_play (Snake.init x y)
| play_turn : forall s d, in_play s -> in_play (Snake.change_direction s d)
| play_frame : forall s s' (eats : bool),
    in_play s -> Snake.move s = Done s' ->
    in_play (if eats then Snake.grow s' else s').

(** The grid of [Food.randomize_position], in cells. *)
Definition grid_columns : Z := screen_width / FOOD_BLOCK_SIZE.
Definition grid_rows : Z := screen_height / FOOD_BLOCK_SIZE.

(** A generator is taken to draw every cell of the grid sooner or later,
    counting passes of the loop from cursor [cur]. *)
Definition draws_every_cell (src : Random.source) (cur : nat) : Prop :=
  forall cell, In cell Food.grid_cells ->
    exists n, fst (Food.sample src (cur + 2 * n)) = cell.

(** A generator that sweeps the grid row by row. *)
Definition sweep : Random.source :=
  fun k => if Nat.even k then Z.of_nat (k / 2) else Z.of_nat (k / 2 / 40).

(** A generator stuck on the top-left cell. *)
Definition stuck : Random.source := fun _ => 0.

(** A list of points without repetition, as a check. *)
Fixpoint nodupb (l : list point) : bool :=
  match l with
  | [] => true
  | p :: rest => negb (point_in p rest) && nodupb rest
  end.

(** The pass at which [sweep] draws a given cell. *)
Definition sweep_pass (cell : point) : nat :=
  Z.to_nat (fst cell / FOOD_BLOCK_SIZE + 40 * (snd cell / FOOD_BLOCK_SIZE)).

(** A generator whose first two draws are 20 and 14: the food lands on the
    grid cell right of the cell the snake starts in. *)
Definition beside : Random.source :=
  fun k => if Nat.even k then 20 else 14.

(** The position [reset_game] gives the snake. *)
Definition start_x : Z := screen_width / 2 - SNAKE_BLOCK_SIZE / 2.
Definition start_y : Z := screen_height / 2 - SNAKE_BLOCK_SIZE / 2.

(** Positions a snake started there can take, and positions of the food. *)
Definition on_snake_lattice (p : point) : Prop :=
  fst p mod SNAKE_BLOCK_SIZE = start_x mod SNAKE_BLOCK_SIZE /\
  snd p mod SNAKE_BLOCK_SIZE = start_y mod SNAKE_BLOCK_SIZE.

Definition on_food_lattice (p : point) : Prop :=
  fst p mod FOOD_BLOCK_SIZE = 0 /\ snd p mod FOOD_BLOCK_SIZE = 0.

Definition lattices (g : Session) : Prop :=
  Forall on_snake_lattice (Snake.positions (snake g)) /\
  on_food_lattice (Food.position (food g)).

(** Sessions in which the snake sits on its lattice, the food on the other
    one, and nothing has been eaten. *)
Definition unfed (g : Session) : Prop :=
  lattices g /\ Snake.score (snake g) = 0 /\ Snake.length (snake g) = 1.

(** ** Further vocabulary *)

(** The direction each arrow key passes to [change_direction] (lines
    199-206); the other keys pass none. *)
Definition key_direction (k : key) : option point :=
  match k with
  | K_UP => Some (0, -1)
  | K_DOWN => Some (0, 1)
  | K_LEFT => Some (-1, 0)
  | K_RIGHT => Some (1, 0)
  | _ => None
  end.

Definition is_quit (e : event) : bool :=
  match e with QUIT => true | _ => false end.

Definition is_quit_or_q (e : event) : bool :=
  match e with QUIT => true | KEYDOWN K_q => true | _ => false end.

Definition is_grow (c : call) : bool :=
  match c with CallGrow => true | _ => false end.

(** How many of the calls are [grow]. *)
Definition grows (cs : list call) : Z :=
  Z.of_nat (List.length (filter is_grow cs)).

(** The head and the head after it has advanced [n] cells along [d]. *)
Definition advance (n : Z) (d h : point) : point :=
  (fst h + n * (fst d * SNAKE_BLOCK_SIZE), snd h + n * (snd d * SNAKE_BLOCK_SIZE)).

(** The head is on screen and off the rest of the body. *)
Definition survives (s : Snake.t) (head : point) : bool :=
  on_screen head && negb (point_in head (tl (Snake.positions s))).

(** What [reset_game] leaves; events of the game-over branch keep it. *)
Definition fresh (g : Session) : Prop :=
  snake g = Snake.init start_x start_y /\
  game_active g = true /\ game_over_state g = false /\
  In (Food.position (food g)) Food.grid_cells.

(** Sessions with a one-cell snake heading along an axis, where the game is
    active exactly when that cell is on screen, and the food is on the grid. *)
Definition settled (g : Session) : Prop :=
  (exists head,
     Snake.positions (snake g) = [head] /\
     game_active g = on_screen head /\
     game_over_state g = negb (on_screen head)) /\
  cardinal (Snake.direction (snake g)) /\
  In (Food.position (food g)) Food.grid_cells.

(** * Basic facts *)

Lemma Done_inj {A : Type} (a b : A) : Done a = Done b -> a = b.
Proof. intros [= H]. exact H. Qed.

(** From [H : bind c k = Done r]: [c] returned; name its value by [p] and
    keep the equation as [E]. *)
Tactic Notation "bind_inv" hyp(H) "as" simple_intropattern(p) "with" ident(E) :=
  match type of H with
  | bind ?c _ = Done _ =>
      destruct c as [p| |] eqn:E;
      [cbn [bind] in H | discriminate H | discriminate H]
  end.

Lemma point_eqb_eq (p q : point) : point_eqb p q = true <-> p = q.
Proof.
  destruct p as [a b], q as [c d]; unfold point_eqb; cbn.
  rewrite andb_true_iff, !Z.eqb_eq. split.
  - intros [-> ->]; reflexivity.
  - intros [= -> ->]; split; reflexivity.
Qed.

Lemma point_eqb_refl (p : point) : point_eqb p p = true.
Proof. apply point_eqb_eq; reflexivity. Qed.

Lemma point_in_In (p : point) (l : list point) :
  point_in p l = true <-> In p l.
Proof.
  induction l as [|q l IH]; cbn.
  - split; [discriminate | tauto].
  - rewrite orb_true_iff, point_eqb_eq, IH. intuition congruence.
Qed.

Lemma point_in_not_In (p : point) (l : list point) :
  point_in p l = false <-> ~ In p l.
Proof.
  rewrite <- point_in_In. destruct (point_in p l); intuition congruence.
Qed.

(** What [move] returns on a non-empty body, spelled out. *)
Lemma move_cons (s : Snake.t) (h : point) (t : list point) :
  Snake.positions s = h :: t ->
  Snake.move s =
  Done (Snake.make (Snake.length s)
          (let inserted :=
             (fst h + fst (Snake.direction s) * SNAKE_BLOCK_SIZE,
              snd h + snd (Snake.direction s) * SNAKE_BLOCK_SIZE) :: h :: t in
           if Z.of_nat (List.length inserted) >? Snake.length s
           then removelast inserted else inserted)
          (Snake.direction s) (Snake.score s)).
Proof.
  intros Hp. unfold Snake.move, Snake.get_head_position. rewrite Hp.
  destruct h as [hx hy]. cbn [bind]. destruct (Snake.direction s) as [dx dy].
  reflexivity.
Qed.

Lemma removelast_length {A : Type} (l : list A) :
  List.length (removelast l) = pred (List.length l).
Proof.
  induction l as [|a [|b l] IH]; cbn in *; try reflexivity.
  rewrite IH. reflexivity.
Qed.

Lemma length_cons_Z {A : Type} (a : A) (l : list A) :
  Z.of_nat (List.length (a :: l)) = Z.of_nat (List.length l) + 1.
Proof. cbn [List.length]. rewrite Nat2Z.inj_succ. reflexivity. Qed.

(** * Snake.move *)

(** C2.  On every snake with a head, [move] returns; the new head is the old
    head plus the direction times [SNAKE_BLOCK_SIZE], which is the direction
    itself in grid cells (one cell, not one pixel); the new body is the new
    head consed on the old body, minus its last element exactly when that
    list is longer than [length]; so one cell is added and at most one is
    removed, and the other attributes are kept. *)
Theorem move_prepends_and_trims (s : Snake.t) (h : point) (t : list point) :
  Snake.positions s = h :: t ->
  exists s',
    Snake.move s = Done s' /\
    let new_head := (fst h + fst (Snake.direction s) * SNAKE_BLOCK_SIZE,
                     snd h + snd (Snake.direction s) * SNAKE_BLOCK_SIZE) in
    cell_of new_head = (fst (cell_of h) + fst (Snake.direction s),
                        snd (cell_of h) + snd (Snake.direction s)) /\
    Snake.get_head_position s' = Done new_head /\
    (body_length s + 1 > Snake.length s ->
       new_head :: Snake.positions s = Snake.positions s' ++ [last t h]) /\
    (body_length s + 1 <= Snake.length s ->
       Snake.positions s' = new_head :: Snake.positions s) /\
    (exists removed,
       new_head :: Snake.positions s = Snake.positions s' ++ removed /\
       (List.length removed <= 1)%nat) /\
    Snake.length s' = Snake.length s /\
    Snake.direction s' = Snake.direction s /\
    Snake.score s' = Snake.score s.
Proof.
  intros Hp. eexists. split; [apply (move_cons s h t Hp)|].
  cbv zeta. unfold body_length, cell_of. rewrite Hp.
  cbn [Snake.positions Snake.length Snake.direction Snake.score fst snd].
  set (nh := (fst h + fst (Snake.direction s) * SNAKE_BLOCK_SIZE,
              snd h + snd (Snake.direction s) * SNAKE_BLOCK_SIZE)).
  assert (Hsplit : nh :: h :: t = removelast (nh :: h :: t) ++ [last t h]).
  { rewrite (app_removelast_last h) at 1 by discriminate.
    f_equal. f_equal. cbn. destruct t; reflexivity. }
  replace (Z.of_nat (List.length (nh :: h :: t)))
    with (Z.of_nat (List.length (h :: t)) + 1)
    by (cbn [List.length]; rewrite (Nat2Z.inj_succ (S _)); reflexivity).
  split.
  { unfold SNAKE_BLOCK_SIZE. rewrite !Z.div_add by lia. reflexivity. }
  destruct (Z.gtb_spec (Z.of_nat (List.length (h :: t)) + 1) (Snake.length s))
    as [Hgt|Hle].
  - repeat split; try reflexivity.
    + intros _. exact Hsplit.
    + intros Hc. lia.
    + exists [last t h]. split; [exact Hsplit | cbn; lia].
  - repeat split; try reflexivity.
    + intros Hc. lia.
    + exists []. split; [rewrite app_nil_r; reflexivity | cbn; lia].
Qed.

Lemma move_prepends_and_trims_witness :
  exists s',
    Snake.move (Snake.make 2 [(390, 290); (370, 290)] (0, 1) 1) = Done s' /\
    Snake.positions s' = [(390, 310); (390, 290)].
Proof.
  destruct (move_prepends_and_trims
              (Snake.make 2 [(390, 290); (370, 290)] (0, 1) 1)
              (390, 290) [(370, 290)] eq_refl) as [s' [Hm _]].
  exists s'. split; [exact Hm|].
  cbv in Hm. injection Hm as <-. reflexivity.
Defined.

(** * Snake.change_direction *)

(** C3.  With a cardinal current direction D, [change_direction] called with
    the opposite of D returns the snake as it was, and called with any other
    cardinal direction sets [direction] to the argument. *)
Theorem change_direction_no_reversal (s : Snake.t) (d : point) :
  cardinal (Snake.direction s) -> cardinal d ->
  (d = opposite (Snake.direction s) -> Snake.change_direction s d = s) /\
  (d <> opposite (Snake.direction s) ->
     Snake.direction (Snake.change_direction s d) = d).
Proof.
  destruct s as [len body dir sc]. unfold cardinal, opposite.
  cbn [Snake.direction]. intros Hdir Hd.
  destruct Hdir as [-> | [-> | [-> | ->]]];
    destruct Hd as [-> | [-> | [-> | ->]]];
    split; intros H; cbn in H |- *;
    solve [reflexivity | discriminate H | exfalso; apply H; reflexivity].
Qed.

Lemma change_direction_no_reversal_witness :
  Snake.change_direction (Snake.init 390 290) (-1, 0) = Snake.init 390 290 /\
  Snake.direction (Snake.change_direction (Snake.init 390 290) (0, -1)) = (0, -1).
Proof.
  split.
  - apply (change_direction_no_reversal (Snake.init 390 290) (-1, 0)).
    + right; right; right; reflexivity.
    + right; right; left; reflexivity.
    + reflexivity.
  - apply (change_direction_no_reversal (Snake.init 390 290) (0, -1)).
    + right; right; right; reflexivity.
    + left; reflexivity.
    + discriminate.
Defined.

(** [change_direction] touches nothing but [direction]. *)
Lemma change_direction_keeps (s : Snake.t) (d : point) :
  Snake.length (Snake.change_direction s d) = Snake.length s /\
  Snake.positions (Snake.change_direction s d) = Snake.positions s /\
  Snake.score (Snake.change_direction s d) = Snake.score s.
Proof.
  unfold Snake.change_direction.
  destruct (point_eqb _ _); repeat split; reflexivity.
Qed.

(** * Lengths *)

Lemma move_inv (s s' : Snake.t) :
  Snake.move s = Done s' ->
  exists h t, Snake.positions s = h :: t.
Proof.
  unfold Snake.move, Snake.get_head_position.
  destruct (Snake.positions s) as [|h t]; [discriminate|].
  intros _. exists h, t. reflexivity.
Qed.

Lemma move_body_length (s s' : Snake.t) :
  Snake.move s = Done s' ->
  0 < body_length s /\
  Snake.length s' = Snake.length s /\
  Snake.score s' = Snake.score s /\
  body_length s' = if body_length s + 1 >? Snake.length s
                   then body_length s else body_length s + 1.
Proof.
  intros Hm. destruct (move_inv s s' Hm) as [h [t Hp]].
  rewrite (move_cons s h t Hp) in Hm. apply Done_inj in Hm.
  subst s'. unfold body_length. rewrite Hp. cbv zeta.
  cbn [Snake.positions Snake.length Snake.score].
  rewrite (length_cons_Z _ (h :: t)), (length_cons_Z h t).
  repeat split.
  - apply Zle_lt_succ, Nat2Z.is_nonneg.
  - destruct (_ >? _).
    + rewrite removelast_length. cbn [List.length pred].
      rewrite Nat2Z.inj_succ. reflexivity.
    + rewrite !length_cons_Z. reflexivity.
Qed.

(** C4.  On a snake whose body has its target length L, [grow] sets [length]
    to L+1, adds 1 to [score] and leaves the body as it is (still L cells);
    the [move] that follows returns a body of L+1 cells, the new head in
    front of the whole old body. *)
Theorem grow_is_deferred (s : Snake.t) (L : Z) :
  Snake.length s = L -> body_length s = L -> 0 < L ->
  Snake.length (Snake.grow s) = L + 1 /\
  Snake.score (Snake.grow s) = Snake.score s + 1 /\
  Snake.positions (Snake.grow s) = Snake.positions s /\
  body_length (Snake.grow s) = L /\
  exists s' new_head,
    Snake.move (Snake.grow s) = Done s' /\
    Snake.positions s' = new_head :: Snake.positions s /\
    body_length s' = L + 1 /\
    Snake.length s' = L + 1.
Proof.
  intros Hlen Hbody Hpos.
  assert (Hne : exists h t, Snake.positions s = h :: t).
  { unfold body_length in Hbody. destruct (Snake.positions s) as [|h t].
    - cbn in Hbody. exfalso. rewrite <- Hbody in Hpos. inversion Hpos.
    - exists h, t. reflexivity. }
  destruct Hne as [h [t Hp]].
  repeat split.
  - cbn. rewrite Hlen. reflexivity.
  - exact Hbody.
  - eexists. eexists. split; [apply (move_cons (Snake.grow s) h t Hp)|].
    cbv zeta. cbn [Snake.positions Snake.length Snake.grow].
    unfold body_length in *. rewrite Hp in *.
    rewrite (length_cons_Z _ (h :: t)), Hbody, Hlen.
    replace (L + 1 >? L + 1) with false
      by (symmetry; rewrite Z.gtb_ltb; apply Z.ltb_irrefl).
    repeat split. cbn [Snake.positions].
    rewrite (length_cons_Z _ (h :: t)), Hbody. reflexivity.
Qed.

Lemma grow_is_deferred_witness :
  Snake.length (Snake.grow (Snake.init 390 290)) = 1 + 1 /\
  body_length (Snake.grow (Snake.init 390 290)) = 1.
Proof.
  destruct (grow_is_deferred (Snake.init 390 290) 1 eq_refl eq_refl eq_refl)
    as [H1 [_ [_ [H2 _]]]].
  split; [exact H1 | exact H2].
Defined.

Lemma grow_body_length (s : Snake.t) :
  body_length (Snake.grow s) = body_length s.
Proof. reflexivity. Qed.

Lemma change_direction_body_length (s : Snake.t) (d : point) :
  body_length (Snake.change_direction s d) = body_length s.
Proof.
  unfold body_length.
  destruct (change_direction_keeps s d) as [_ [-> _]]. reflexivity.
Qed.

Lemma do_call_keeps_bound (c : call) (s s' : Snake.t) :
  body_length s <= Snake.length s ->
  do_call s c = Done s' ->
  body_length s' <= Snake.length s'.
Proof.
  intros Hle Hc. destruct c as [| |d]; cbn in Hc.
  - destruct (move_body_length s s' Hc) as [_ [Hl [_ Hb]]].
    rewrite Hl, Hb. destruct (Z.gtb_spec (body_length s + 1) (Snake.length s)); lia.
  - injection Hc as <-. rewrite grow_body_length. cbn [Snake.grow Snake.length]. lia.
  - injection Hc as <-. rewrite change_direction_body_length.
    destruct (change_direction_keeps s d) as [-> _]. exact Hle.
Qed.

Lemma do_calls_keep_bound (cs : list call) :
  forall s s',
    body_length s <= Snake.length s ->
    do_calls s cs = Done s' ->
    body_length s' <= Snake.length s'.
Proof.
  induction cs as [|c cs IH]; intros s s' Hle Hrun; cbn in Hrun.
  - injection Hrun as <-. exact Hle.
  - bind_inv Hrun as s1 with Hc.
    exact (IH s1 s' (do_call_keeps_bound c s s1 Hle Hc) Hrun).
Qed.

(** [move] returns on every snake that has a head. *)
Lemma move_returns (s : Snake.t) :
  0 < body_length s -> exists s', Snake.move s = Done s'.
Proof.
  unfold body_length. intros Hpos.
  destruct (Snake.positions s) as [|h t] eqn:Hp; [inversion Hpos|].
  eexists. apply (move_cons s h t Hp).
Qed.

(** The methods never raise on a snake built by [Snake.init]: the body
    always keeps a head. *)
Lemma do_calls_return (cs : list call) :
  forall s,
    0 < body_length s ->
    exists s', do_calls s cs = Done s' /\ 0 < body_length s'.
Proof.
  induction cs as [|c cs IH]; intros s Hpos; cbn [do_calls].
  - exists s. split; [reflexivity | exact Hpos].
  - assert (Hstep : exists s1, do_call s c = Done s1 /\ 0 < body_length s1).
    { destruct c as [| |d]; cbn [do_call].
      - destruct (move_returns s Hpos) as [s1 Hm]. exists s1.
        split; [exact Hm|].
        destruct (move_body_length s s1 Hm) as [_ [_ [_ Hb]]].
        rewrite Hb. destruct (_ >? _); lia.
      - exists (Snake.grow s). split; [reflexivity | exact Hpos].
      - exists (Snake.change_direction s d).
        split; [reflexivity | rewrite change_direction_body_length; exact Hpos]. }
    destruct Hstep as [s1 [Hc Hpos1]]. rewrite Hc. cbn [bind].
    exact (IH s1 Hpos1).
Qed.

(** Between frames the body has its target length, or is one cell short of
    it because the last frame ended with [grow]. *)
Lemma in_play_lengths (s : Snake.t) :
  in_play s ->
  0 < body_length s /\
  (body_length s = Snake.length s \/ body_length s + 1 = Snake.length s).
Proof.
  induction 1 as [x y | s d _ [IHp IHl] | s s' eats _ [IHp IHl] Hm].
  - split; [reflexivity | left; reflexivity].
  - rewrite change_direction_body_length.
    destruct (change_direction_keeps s d) as [-> _]. split; assumption.
  - destruct (move_body_length s s' Hm) as [_ [Hl [_ Hb]]].
    assert (Hafter : 0 < body_length s' /\ body_length s' = Snake.length s').
    { rewrite Hl, Hb.
      destruct (Z.gtb_spec (body_length s + 1) (Snake.length s)); lia. }
    destruct eats.
    + rewrite grow_body_length. cbn [Snake.grow Snake.length].
      split; [tauto | right; lia].
    + split; [tauto | left; tauto].
Qed.

(** C9.  Whatever methods are called on a new snake, in whatever order, the
    calls return and the body is never longer than [length]; and under the
    main loop's order of calls (per frame one [move], then [grow] or
    nothing) every [move] returns with a body of exactly [length] cells. *)
Theorem length_invariant :
  (forall x y cs,
     exists s, do_calls (Snake.init x y) cs = Done s /\
               body_length s <= Snake.length s) /\
  (forall s,
     in_play s ->
     exists s', Snake.move s = Done s' /\
                body_length s' = Snake.length s').
Proof.
  split.
  - intros x y cs.
    destruct (do_calls_return cs (Snake.init x y) eq_refl) as [s [Hrun _]].
    exists s. split; [exact Hrun|].
    apply (do_calls_keep_bound cs (Snake.init x y) s); [|exact Hrun].
    cbn. lia.
  - intros s Hplay.
    destruct (in_play_lengths s Hplay) as [Hpos Hl].
    destruct (move_returns s Hpos) as [s' Hm].
    exists s'. split; [exact Hm|].
    destruct (move_body_length s s' Hm) as [_ [Hl' [_ Hb]]].
    rewrite Hl', Hb.
    destruct (Z.gtb_spec (body_length s + 1) (Snake.length s)); lia.
Qed.

Lemma length_invariant_witness :
  in_play (Snake.grow (Snake.make 1 [(410, 290)] (1, 0) 0)) /\
  exists s',
    Snake.move (Snake.grow (Snake.make 1 [(410, 290)] (1, 0) 0)) = Done s' /\
    body_length s' = 2.
Proof.
  assert (Hplay : in_play (Snake.grow (Snake.make 1 [(410, 290)] (1, 0) 0))).
  { apply (play_frame (Snake.init 390 290)
             (Snake.make 1 [(410, 290)] (1, 0) 0) true).
    - apply play_new.
    - reflexivity. }
  split; [exact Hplay|].
  destruct (proj2 length_invariant _ Hplay) as [s' [Hm Hlen]].
  exists s'. split; [exact Hm|].
  rewrite Hlen. cbv in Hm. apply Done_inj in Hm. subst s'. reflexivity.
Defined.

(** * Food.randomize_position *)

Lemma nodupb_NoDup (l : list point) : nodupb l = true -> NoDup l.
Proof.
  induction l as [|p l IH]; cbn; intros H; constructor.
  - apply andb_true_iff in H. destruct H as [H _].
    apply point_in_not_In. destruct (point_in p l); [discriminate | reflexivity].
  - apply IH. apply andb_true_iff in H. tauto.
Qed.

Lemma grid_cells_NoDup : NoDup Food.grid_cells.
Proof. apply nodupb_NoDup. vm_compute. reflexivity. Qed.

Lemma grid_cells_length :
  Z.of_nat (List.length Food.grid_cells) = grid_columns * grid_rows.
Proof. vm_compute. reflexivity. Qed.

Lemma in_grid_cells (p : point) :
  In p Food.grid_cells <->
  exists i j, 0 <= i < grid_columns /\ 0 <= j < grid_rows /\
              p = (i * FOOD_BLOCK_SIZE, j * FOOD_BLOCK_SIZE).
Proof.
  unfold Food.grid_cells. rewrite in_flat_map. split.
  - intros [x [Hx Hin]]. apply in_map_iff in Hin. destruct Hin as [y [Hp Hy]].
    apply in_seq in Hx. apply in_seq in Hy.
    exists (Z.of_nat x), (Z.of_nat y).
    change (screen_width / FOOD_BLOCK_SIZE) with 40 in Hx.
    change (screen_height / FOOD_BLOCK_SIZE) with 30 in Hy.
    change grid_columns with 40. change grid_rows with 30.
    repeat split; try lia. symmetry; exact Hp.
  - intros [i [j [Hi [Hj ->]]]].
    change grid_columns with 40 in Hi. change grid_rows with 30 in Hj.
    exists (Z.to_nat i). split.
    + apply in_seq. change (screen_width / FOOD_BLOCK_SIZE) with 40. lia.
    + apply in_map_iff. exists (Z.to_nat j). split.
      * rewrite !Z2Nat.id by lia. reflexivity.
      * apply in_seq. change (screen_height / FOOD_BLOCK_SIZE) with 30. lia.
Qed.

Lemma grid_cell_on_screen (p : point) :
  In p Food.grid_cells ->
  on_screen p = true /\ on_food_lattice p.
Proof.
  intros Hin. apply in_grid_cells in Hin. destruct Hin as [i [j [Hi [Hj ->]]]].
  change grid_columns with 40 in Hi. change grid_rows with 30 in Hj.
  unfold on_food_lattice, on_screen, FOOD_BLOCK_SIZE, screen_width, screen_height.
  cbn [fst snd]. rewrite !Z.mod_mul by lia. repeat split.
  rewrite !andb_true_iff, !Z.leb_le, !Z.ltb_lt. lia.
Qed.

Lemma lattices_disjoint (p q : point) :
  on_snake_lattice p -> on_food_lattice q -> p <> q.
Proof.
  intros [Hp _] [Hq _] ->.
  unfold SNAKE_BLOCK_SIZE in Hp. unfold FOOD_BLOCK_SIZE in Hq.
  rewrite Hq in Hp. vm_compute in Hp. discriminate.
Qed.

(** A list shorter than the grid leaves a cell of the grid free. *)
Lemma free_cell_exists (excluded : list point) :
  Z.of_nat (List.length excluded) < grid_columns * grid_rows ->
  exists cell, In cell Food.grid_cells /\ point_in cell excluded = false.
Proof.
  intros Hlt.
  assert (Hcases : forall l : list point,
             incl l excluded \/
             exists cell, In cell l /\ point_in cell excluded = false).
  { induction l as [|c l [IH | [cell [Hin Hfree]]]].
    - left. intros x [].
    - destruct (point_in c excluded) eqn:Hc.
      + left. intros x [<- | Hx]; [apply point_in_In; exact Hc | apply IH; exact Hx].
      + right. exists c. split; [left; reflexivity | exact Hc].
    - right. exists cell. split; [right; exact Hin | exact Hfree]. }
  destruct (Hcases Food.grid_cells) as [Hincl | Hfree]; [|exact Hfree].
  exfalso.
  pose proof (NoDup_incl_length grid_cells_NoDup Hincl) as Hle.
  rewrite <- grid_cells_length in Hlt. lia.
Qed.

Section Spawning.

Variable src : Random.source.

Lemma sample_eq (cur : nat) :
  Food.sample src cur =
  ((src cur mod grid_columns * FOOD_BLOCK_SIZE,
    src (S cur) mod grid_rows * FOOD_BLOCK_SIZE), S (S cur)).
Proof. reflexivity. Qed.

Lemma sample_in_grid (cur : nat) :
  In (fst (Food.sample src cur)) Food.grid_cells.
Proof.
  rewrite sample_eq. cbn [fst]. apply in_grid_cells.
  exists (src cur mod grid_columns), (src (S cur) mod grid_rows).
  repeat split; try apply Z.mod_pos_bound; reflexivity.
Qed.

(** One pass of the loop. *)
Lemma randomize_position_pass (fuel : nat) (excluded : list point) (cur : nat) :
  Food.randomize_position src (S fuel) excluded cur =
  if point_in (fst (Food.sample src cur)) excluded
  then Food.randomize_position src fuel excluded (S (S cur))
  else Done (Food.make (fst (Food.sample src cur)), S (S cur)).
Proof.
  cbn [Food.randomize_position]. rewrite sample_eq. cbn [fst].
  destruct (point_in _ excluded); reflexivity.
Qed.

(** The loop stops at the first pass whose cell is free. *)
Lemma randomize_position_stops (excluded : list point) (n : nat) :
  forall cur,
    point_in (fst (Food.sample src (cur + 2 * n))) excluded = false ->
    exists m f cur',
      (m <= n)%nat /\
      forall fuel, (m < fuel)%nat ->
        Food.randomize_position src fuel excluded cur = Done (f, cur').
Proof.
  induction n as [|n IH]; intros cur Hfree.
  - replace (cur + 2 * 0)%nat with cur in Hfree by lia.
    exists 0%nat, (Food.make (fst (Food.sample src cur))), (S (S cur)).
    split; [lia|]. intros [|fuel] Hf; [lia|].
    rewrite randomize_position_pass, Hfree. reflexivity.
  - destruct (point_in (fst (Food.sample src cur)) excluded) eqn:Hhere.
    + replace (cur + 2 * S n)%nat with (S (S cur) + 2 * n)%nat in Hfree by lia.
      destruct (IH (S (S cur)) Hfree) as [m [f [cur' [Hm Hrun]]]].
      exists (S m), f, cur'. split; [lia|].
      intros [|fuel] Hf; [lia|].
      rewrite randomize_position_pass, Hhere. apply Hrun. lia.
    + exists 0%nat, (Food.make (fst (Food.sample src cur))), (S (S cur)).
      split; [lia|]. intros [|fuel] Hf; [lia|].
      rewrite randomize_position_pass, Hhere. reflexivity.
Qed.

(** What the loop returns was drawn at some pass and was free. *)
Lemma randomize_position_inv (excluded : list point) (fuel : nat) :
  forall cur f cur',
    Food.randomize_position src fuel excluded cur = Done (f, cur') ->
    exists c, Food.position f = fst (Food.sample src c) /\
              point_in (Food.position f) excluded = false.
Proof.
  induction fuel as [|fuel IH]; intros cur f cur' Hrun; [discriminate|].
  rewrite randomize_position_pass in Hrun.
  destruct (point_in _ excluded) eqn:Hin.
  - exact (IH _ _ _ Hrun).
  - apply Done_inj in Hrun. injection Hrun as <- _. exists cur.
    split; [reflexivity | exact Hin].
Qed.

Lemma randomize_position_on_food_lattice (fuel : nat) (excluded : list point)
    (cur : nat) (f : Food.t) (cur' : nat) :
  Food.randomize_position src fuel excluded cur = Done (f, cur') ->
  on_food_lattice (Food.position f).
Proof.
  intros Hrun.
  destruct (randomize_position_inv _ _ _ _ _ Hrun) as [c [Hpos _]].
  apply grid_cell_on_screen. rewrite Hpos. apply sample_in_grid.
Qed.

(** With the snake on its lattice the first cell drawn is always free. *)
Lemma randomize_position_first_pass (fuel : nat) (excluded : list point)
    (cur : nat) :
  Forall on_snake_lattice excluded ->
  Food.randomize_position src (S fuel) excluded cur
    = Done (Food.make (fst (Food.sample src cur)), S (S cur)).
Proof.
  intros Hall. rewrite randomize_position_pass.
  assert (Hfree : point_in (fst (Food.sample src cur)) excluded = false).
  { apply point_in_not_In. intros Hin.
    rewrite Forall_forall in Hall.
    destruct (grid_cell_on_screen _ (sample_in_grid cur)) as [_ Hfood].
    exact (lattices_disjoint _ _ (Hall _ Hin) Hfood eq_refl). }
  rewrite Hfree. reflexivity.
Qed.

End Spawning.

(** * The main loop *)

Lemma event_eq_dec (a b : event) : {a = b} + {a <> b}.
Proof. repeat decide equality. Defined.

Lemma head_in_positions (s : Snake.t) (h : point) :
  Snake.get_head_position s = Done h -> In h (Snake.positions s).
Proof.
  unfold Snake.get_head_position.
  destruct (Snake.positions s) as [|a l]; [discriminate|].
  intros H. apply Done_inj in H. subst a. left. reflexivity.
Qed.

Lemma In_removelast {A : Type} (x : A) (l : list A) :
  In x (removelast l) -> In x l.
Proof.
  induction l as [|a [|b l] IH]; cbn in *; [tauto | tauto |].
  intros [-> | H]; [left; reflexivity | right; apply IH; exact H].
Qed.

(** [move] keeps the snake on its lattice. *)
Lemma move_on_snake_lattice (s s' : Snake.t) :
  Forall on_snake_lattice (Snake.positions s) ->
  Snake.move s = Done s' ->
  Forall on_snake_lattice (Snake.positions s').
Proof.
  intros Hall Hm. destruct (move_inv s s' Hm) as [h [t Hp]].
  rewrite (move_cons s h t Hp) in Hm. apply Done_inj in Hm.
  subst s'. cbv zeta. cbn [Snake.positions]. rewrite Hp in Hall.
  assert (Hnew : Forall on_snake_lattice
            ((fst h + fst (Snake.direction s) * SNAKE_BLOCK_SIZE,
              snd h + snd (Snake.direction s) * SNAKE_BLOCK_SIZE) :: h :: t)).
  { constructor; [|exact Hall].
    apply Forall_inv in Hall. destruct Hall as [Hx Hy].
    split; cbn [fst snd]; rewrite Z.mod_add by discriminate; assumption. }
  destruct (_ >? _); [|exact Hnew].
  apply Forall_forall. intros p Hin. apply In_removelast in Hin.
  revert p Hin. apply Forall_forall. exact Hnew.
Qed.

(** Key presses of the active branch reach the snake's direction and the
    [running] flag, nothing else. *)
Lemma active_events_keep (events : list event) :
  forall g,
    let g0 := fold_left active_event events g in
    food g0 = food g /\ rng g0 = rng g /\
    game_active g0 = game_active g /\
    game_over_state g0 = game_over_state g /\
    Snake.positions (snake g0) = Snake.positions (snake g) /\
    Snake.length (snake g0) = Snake.length (snake g) /\
    Snake.score (snake g0) = Snake.score (snake g).
Proof.
  induction events as [|e events IH]; intros g; cbn [fold_left].
  - repeat split.
  - specialize (IH (active_event g e)). cbv zeta in IH.
    destruct IH as [H1 [H2 [H3 [H4 [H5 [H6 H7]]]]]].
    rewrite H1, H2, H3, H4, H5, H6, H7. clear.
    destruct e as [|k|]; [repeat split | | repeat split].
    destruct k; cbn [active_event set_snake food rng game_active
                     game_over_state snake];
      repeat split; apply change_direction_keeps.
Qed.

Lemma active_events_in_play (events : list event) :
  forall g, in_play (snake g) -> in_play (snake (fold_left active_event events g)).
Proof.
  induction events as [|e events IH]; intros g Hg; cbn [fold_left];
    [exact Hg|].
  apply IH. destruct e as [|k|]; [exact Hg | | exact Hg].
  destruct k; cbn [active_event set_snake snake];
    solve [exact Hg | apply play_turn; exact Hg].
Qed.

Lemma boundary_check_shape (g g1 : Session) :
  boundary_check g = Done g1 ->
  snake g1 = snake g /\ food g1 = food g /\ rng g1 = rng g.
Proof.
  unfold boundary_check. intros H. bind_inv H as head with Hhead.
  apply Done_inj in H. subst g1.
  destruct (negb (on_screen head)); repeat split.
Qed.

Lemma self_check_shape (g g2 : Session) :
  self_check g = Done g2 ->
  snake g2 = snake g /\ food g2 = food g /\ rng g2 = rng g.
Proof.
  unfold self_check. intros H. destruct (game_active g).
  - bind_inv H as hit with Hhit. apply Done_inj in H. subst g2.
    destruct hit; repeat split.
  - apply Done_inj in H. subst g2. repeat split.
Qed.

Section Frames.

Variables (src : Random.source) (fuel : nat).

Lemma reset_game_inv (run : bool) (cur : nat) (g : Session) :
  reset_game src fuel run cur = Done g ->
  exists f cur',
    Food.randomize_position src fuel [(start_x, start_y)] cur = Done (f, cur') /\
    g = mkSession (Snake.init start_x start_y) f true false run cur'.
Proof.
  unfold reset_game, Food.init.
  change (Snake.positions
            (Snake.init (screen_width / 2 - SNAKE_BLOCK_SIZE / 2)
               (screen_height / 2 - SNAKE_BLOCK_SIZE / 2)))
    with [(start_x, start_y)].
  intros H. bind_inv H as [f cur'] with Hrun.
  exists f, cur'. split; [reflexivity|].
  apply Done_inj in H. symmetry. exact H.
Qed.

Lemma reset_game_unfed (run : bool) (cur : nat) (g : Session) :
  reset_game src fuel run cur = Done g ->
  unfed g /\ snake g = Snake.init start_x start_y /\ game_active g = true.
Proof.
  intros H. destruct (reset_game_inv run cur g H) as [f [cur' [Hrun ->]]].
  repeat split.
  - constructor; [|constructor]. split; reflexivity.
  - apply (randomize_position_on_food_lattice _ _ _ _ _ _ Hrun).
  - apply (randomize_position_on_food_lattice _ _ _ _ _ _ Hrun).
Qed.

(** ** The active branch *)

(** Once the game has ended, the two later checks of the frame do nothing. *)
Lemma checks_skipped_when_over (g : Session) :
  game_active g = false ->
  self_check g = Done g /\ food_check src fuel g = Done g.
Proof.
  intros H. unfold self_check, food_check. rewrite H. split; reflexivity.
Qed.

Lemma food_check_shape (g g' : Session) :
  food_check src fuel g = Done g' ->
  g' = g \/
  (Snake.get_head_position (snake g) = Done (Food.position (food g)) /\
   snake g' = Snake.grow (snake g) /\
   Food.randomize_position src fuel
     (Snake.positions (Snake.grow (snake g))) (rng g)
     = Done (food g', rng g')).
Proof.
  unfold food_check. intros H.
  destruct (game_active g);
    [|apply Done_inj in H; left; symmetry; exact H].
  bind_inv H as head with Hhead.
  destruct (point_eqb head (Food.position (food g))) eqn:Heq;
    [|apply Done_inj in H; left; symmetry; exact H].
  apply point_eqb_eq in Heq. subst head.
  bind_inv H as [f cur'] with Hrun.
  apply Done_inj in H. subst g'. right. repeat split.
Qed.

Lemma food_check_misses (g : Session) (head : point) :
  Snake.get_head_position (snake g) = Done head ->
  on_snake_lattice head ->
  on_food_lattice (Food.position (food g)) ->
  food_check src fuel g = Done g.
Proof.
  intros Hhead Hs Hf. unfold food_check. rewrite Hhead. cbn [bind].
  destruct (game_active g); [|reflexivity].
  destruct (point_eqb head (Food.position (food g))) eqn:Heq; [|reflexivity].
  apply point_eqb_eq in Heq. exfalso.
  exact (lattices_disjoint _ _ Hs Hf Heq).
Qed.

(** A frame of the active branch that returns has moved the snake, and
    either left food and generator alone or eaten. *)
Lemma active_frame_shape (events : list event) (g g' : Session) :
  active_frame src fuel events g = Done g' ->
  exists s,
    Snake.move (snake (fold_left active_event events g)) = Done s /\
    ((snake g' = s /\ food g' = food g /\ rng g' = rng g) \/
     (Snake.get_head_position s = Done (Food.position (food g)) /\
      snake g' = Snake.grow s /\
      Food.randomize_position src fuel (Snake.positions (Snake.grow s)) (rng g)
        = Done (food g', rng g'))).
Proof.
  unfold active_frame. intros Hrun.
  destruct (active_events_keep events g) as [Hf [Hr _]].
  set (g0 := fold_left active_event events g) in *.
  bind_inv Hrun as s with Hm. exists s. split; [reflexivity|].
  bind_inv Hrun as g1 with Hb. bind_inv Hrun as g2 with Hs.
  destruct (boundary_check_shape _ _ Hb) as [B1 [B2 B3]].
  destruct (self_check_shape _ _ Hs) as [S1 [S2 S3]].
  cbn [set_snake snake food rng] in B1, B2, B3.
  assert (Hsn : snake g2 = s) by congruence.
  assert (Hfo : food g2 = food g) by congruence.
  assert (Hrn : rng g2 = rng g) by congruence.
  destruct (food_check_shape g2 g' Hrun) as [-> | [Hh [Hg Hrand]]].
  - left. repeat split; assumption.
  - right. rewrite Hsn, Hfo in Hh. rewrite Hsn in Hg. rewrite Hsn, Hrn in Hrand.
    repeat split; assumption.
Qed.

(** A frame of the active branch in which the moved head is on screen and
    off the rest of the body comes down to the food check. *)
Lemma active_frame_alive (events : list event) (g : Session) (s : Snake.t)
    (head : point) :
  game_active g = true ->
  Snake.move (snake (fold_left active_event events g)) = Done s ->
  Snake.get_head_position s = Done head ->
  on_screen head = true ->
  point_in head (tl (Snake.positions s)) = false ->
  frame src fuel events g
    = food_check src fuel (set_snake (fold_left active_event events g) s).
Proof.
  intros Hact Hmove Hhead Hon Hself.
  destruct (active_events_keep events g) as [_ [_ [Ha _]]].
  unfold frame, active_frame. rewrite Hact, Hmove. cbn [bind].
  set (g1 := set_snake (fold_left active_event events g) s).
  unfold boundary_check. change (snake g1) with s.
  rewrite Hhead. cbn [bind]. rewrite Hon. cbn [negb].
  unfold self_check, Snake.check_collision_with_self.
  change (game_active g1) with (game_active (fold_left active_event events g)).
  change (snake g1) with s.
  rewrite Ha, Hact, Hhead. cbn [bind]. rewrite Hself. reflexivity.
Qed.

(** C5.  In a frame of the active branch, when the head that [move] produced
    is off the screen the frame ends with [game_active] false and
    [game_over_state] true, and the session is otherwise the one [move]
    left: the self-collision and food checks change nothing, the food and
    the generator are untouched, score and target length are those from
    before the frame.  No iteration budget is needed. *)
Theorem boundary_death_precedence (events : list event) (g : Session)
    (s : Snake.t) (head : point) :
  game_active g = true ->
  Snake.move (snake (fold_left active_event events g)) = Done s ->
  Snake.get_head_position s = Done head ->
  on_screen head = false ->
  frame src fuel events g
    = Done (end_game (set_snake (fold_left active_event events g) s)) /\
  (forall g', frame src fuel events g = Done g' ->
     game_active g' = false /\ game_over_state g' = true /\
     snake g' = s /\ food g' = food g /\ rng g' = rng g /\
     Snake.score (snake g') = Snake.score (snake g) /\
     Snake.length (snake g') = Snake.length (snake g)).
Proof.
  intros Hact Hmove Hhead Hoff.
  assert (Hframe : frame src fuel events g
            = Done (end_game (set_snake (fold_left active_event events g) s))).
  { unfold frame, active_frame. rewrite Hact, Hmove. cbn [bind].
    set (g1 := set_snake (fold_left active_event events g) s).
    unfold boundary_check. change (snake g1) with s.
    rewrite Hhead. cbn [bind]. rewrite Hoff. cbn [negb].
    destruct (checks_skipped_when_over (end_game g1) eq_refl)
      as [Hself Hfood].
    rewrite Hself. cbn [bind]. exact Hfood. }
  split; [exact Hframe|].
  intros g' Hg'. rewrite Hframe in Hg'. apply Done_inj in Hg'. subst g'.
  destruct (active_events_keep events g) as [Hf [Hr [_ [_ [_ [Hl Hs]]]]]].
  destruct (move_body_length _ _ Hmove) as [_ [Hl' [Hs' _]]].
  cbn [end_game set_snake game_active game_over_state snake food rng].
  repeat split; try assumption; congruence.
Qed.

Lemma active_frame_unfed (events : list event) (g g' : Session) :
  unfed g ->
  active_frame src fuel events g = Done g' ->
  unfed g' /\ food g' = food g /\ rng g' = rng g.
Proof.
  intros [[Hsn Hfo] [Hsc Hle]] Hrun.
  destruct (active_frame_shape events g g' Hrun) as [s [Hm Hcases]].
  destruct (active_events_keep events g) as [_ [_ [_ [_ [Kp [Kl Ks]]]]]].
  assert (Hs : Forall on_snake_lattice (Snake.positions s)).
  { apply (move_on_snake_lattice (snake (fold_left active_event events g)) s);
      [rewrite Kp; exact Hsn | exact Hm]. }
  destruct (move_body_length _ _ Hm) as [_ [Ml [Ms _]]].
  destruct Hcases as [[E1 [E2 E3]] | [Hhead _]].
  - unfold unfed, lattices. rewrite E1, E2.
    split; [|split; [reflexivity | exact E3]].
    split; [split; assumption | split; congruence].
  - exfalso. apply head_in_positions in Hhead.
    rewrite Forall_forall in Hs.
    exact (lattices_disjoint _ _ (Hs _ Hhead) Hfo eq_refl).
Qed.

(** ** The game-over branch *)

(** An event of the game-over branch other than R leaves everything but
    [running] as it was. *)
Lemma over_event_keeps (g : Session) (e : event) :
  e <> KEYDOWN K_r ->
  exists g', over_event src fuel g e = Done g' /\
    snake g' = snake g /\ food g' = food g /\
    game_active g' = game_active g /\
    game_over_state g' = game_over_state g /\ rng g' = rng g.
Proof.
  intros Hr. destruct e as [|k|]; cbn [over_event].
  - eexists; split; [reflexivity | repeat split].
  - destruct k; try (eexists; split; [reflexivity | repeat split]).
    exfalso; apply Hr; reflexivity.
  - eexists; split; [reflexivity | repeat split].
Qed.

Lemma over_events_keep (events : list event) :
  forall g,
    ~ In (KEYDOWN K_r) events ->
    exists g', over_events src fuel events g = Done g' /\
      snake g' = snake g /\ food g' = food g /\
      game_active g' = game_active g /\
      game_over_state g' = game_over_state g /\ rng g' = rng g.
Proof.
  induction events as [|e events IH]; intros g Hno; cbn [over_events].
  - exists g. repeat split.
  - destruct (over_event_keeps g e) as [g1 [He [H1 [H2 [H3 [H4 H5]]]]]].
    { intros ->. apply Hno. left. reflexivity. }
    rewrite He. cbn [bind].
    destruct (IH g1) as [g' [Hrun [K1 [K2 [K3 [K4 K5]]]]]].
    { intros Hin. apply Hno. right. exact Hin. }
    exists g'. split; [exact Hrun|]. repeat split; congruence.
Qed.

Lemma over_events_ignored (events : list event) :
  forall g,
    (forall e, In e events ->
       e <> QUIT /\ e <> KEYDOWN K_q /\ e <> KEYDOWN K_r) ->
    over_events src fuel events g = Done g.
Proof.
  induction events as [|e events IH]; intros g Hnone; cbn [over_events];
    [reflexivity|].
  destruct (Hnone e (or_introl eq_refl)) as [Hq [Hkq Hkr]].
  assert (He : over_event src fuel g e = Done g).
  { destruct e as [|k|]; [congruence | | reflexivity].
    destruct k; try reflexivity; congruence. }
  rewrite He. cbn [bind]. apply IH.
  intros e' Hin. apply Hnone. right. exact Hin.
Qed.

(** R on the game-over screen is [reset_game]. *)
Lemma game_over_restart (g : Session) :
  game_active g = false ->
  frame src fuel [KEYDOWN K_r] g
    = reset_game src fuel (running g) (rng g).
Proof.
  intros Hover. unfold frame. rewrite Hover. cbn [over_events over_event].
  destruct (reset_game src fuel (running g) (rng g)); reflexivity.
Qed.

(** C6.  In a frame entered with [game_active] false: events other than
    QUIT, Q and R leave the whole session as it was (direction keys
    included); as long as R is not pressed the snake, the food, both flags
    and the generator are as before and the game stays over (QUIT and Q
    reach [running] only); and a frame that ends with [game_active] true
    has seen R, the key that calls [reset_game]. *)
Theorem game_over_freeze (events : list event) (g : Session) :
  game_active g = false ->
  ((forall e, In e events ->
      e <> QUIT /\ e <> KEYDOWN K_q /\ e <> KEYDOWN K_r) ->
   frame src fuel events g = Done g) /\
  (~ In (KEYDOWN K_r) events ->
   exists g', frame src fuel events g = Done g' /\
     snake g' = snake g /\ food g' = food g /\
     game_active g' = false /\
     game_over_state g' = game_over_state g /\ rng g' = rng g) /\
  (forall g', frame src fuel events g = Done g' ->
     game_active g' = true -> In (KEYDOWN K_r) events).
Proof.
  intros Hover. unfold frame. rewrite Hover. split; [|split].
  - apply over_events_ignored.
  - intros Hno.
    destruct (over_events_keep events g Hno)
      as [g' [Hrun [H1 [H2 [H3 [H4 H5]]]]]].
    exists g'. repeat split; congruence.
  - intros g' Hrun Hact.
    destruct (in_dec event_eq_dec (KEYDOWN K_r) events) as [Hin | Hno];
      [exact Hin|].
    destruct (over_events_keep events g Hno) as [g1 [Hrun1 [_ [_ [H3 _]]]]].
    rewrite Hrun in Hrun1. apply Done_inj in Hrun1. subst g1. congruence.
Qed.

Lemma over_events_unfed (events : list event) :
  forall g g',
    unfed g -> over_events src fuel events g = Done g' -> unfed g'.
Proof.
  induction events as [|e events IH]; intros g g' Hg Hrun;
    cbn [over_events] in Hrun.
  - apply Done_inj in Hrun. subst g'. exact Hg.
  - bind_inv Hrun as g1 with He. apply (IH g1 g'); [|exact Hrun].
    destruct (event_eq_dec e (KEYDOWN K_r)) as [-> | Hr].
    + cbn [over_event] in He. apply reset_game_unfed in He. tauto.
    + destruct (over_event_keeps g e Hr) as [g2 [He2 [K1 [K2 _]]]].
      rewrite He in He2. apply Done_inj in He2. subst g2.
      unfold unfed, lattices in *. rewrite K1, K2. exact Hg.
Qed.

Lemma over_events_in_play (events : list event) :
  forall g g',
    in_play (snake g) -> over_events src fuel events g = Done g' ->
    in_play (snake g').
Proof.
  induction events as [|e events IH]; intros g g' Hg Hrun;
    cbn [over_events] in Hrun.
  - apply Done_inj in Hrun. subst g'. exact Hg.
  - bind_inv Hrun as g1 with He. apply (IH g1 g'); [|exact Hrun].
    destruct (event_eq_dec e (KEYDOWN K_r)) as [-> | Hr].
    + cbn [over_event] in He. apply reset_game_unfed in He.
      destruct He as [_ [-> _]]. apply play_new.
    + destruct (over_event_keeps g e Hr) as [g2 [He2 [K1 _]]].
      rewrite He in He2. apply Done_inj in He2. subst g2.
      rewrite K1. exact Hg.
Qed.

End Frames.

Lemma boundary_death_precedence_witness :
  frame sweep 0 [KEYDOWN K_LEFT]
    (mkSession (Snake.make 1 [(790, 290)] (1, 0) 0) (Food.make (0, 0))
       true false true 2%nat)
  = Done (mkSession (Snake.make 1 [(810, 290)] (1, 0) 0) (Food.make (0, 0))
            false true true 2%nat).
Proof.
  apply (boundary_death_precedence sweep 0 [KEYDOWN K_LEFT]
           (mkSession (Snake.make 1 [(790, 290)] (1, 0) 0) (Food.make (0, 0))
              true false true 2%nat)
           (Snake.make 1 [(810, 290)] (1, 0) 0) (810, 290));
    reflexivity.
Defined.

Lemma game_over_freeze_witness :
  frame sweep 0 [KEYDOWN K_UP; OTHER; KEYDOWN K_other]
    (mkSession (Snake.make 1 [(810, 290)] (1, 0) 0) (Food.make (0, 0))
       false true true 2%nat)
  = Done (mkSession (Snake.make 1 [(810, 290)] (1, 0) 0) (Food.make (0, 0))
            false true true 2%nat).
Proof.
  apply (game_over_freeze sweep 0 [KEYDOWN K_UP; OTHER; KEYDOWN K_other]
           (mkSession (Snake.make 1 [(810, 290)] (1, 0) 0) (Food.make (0, 0))
              false true true 2%nat)).
  - reflexivity.
  - intros e [<- | [<- | [<- | []]]]; repeat split; discriminate.
Defined.

(** * Where the food lands *)

(** C7.  A call of [randomize_position] that returns leaves the food on a
    cell of the grid (on screen, both coordinates multiples of
    [FOOD_BLOCK_SIZE]) that is not in the list it was given; so the food
    placed by [reset_game] and the food replaced after a meal are off the
    body of the snake of that moment. *)
Theorem randomize_position_excludes :
  (forall src fuel excluded cur f cur',
     Food.randomize_position src fuel excluded cur = Done (f, cur') ->
     In (Food.position f) Food.grid_cells /\
     on_screen (Food.position f) = true /\
     fst (Food.position f) mod FOOD_BLOCK_SIZE = 0 /\
     snd (Food.position f) mod FOOD_BLOCK_SIZE = 0 /\
     ~ In (Food.position f) excluded) /\
  (forall src fuel run cur g,
     reset_game src fuel run cur = Done g ->
     ~ In (Food.position (food g)) (Snake.positions (snake g))) /\
  (forall src fuel g g',
     game_active g = true ->
     Snake.get_head_position (snake g) = Done (Food.position (food g)) ->
     food_check src fuel g = Done g' ->
     ~ In (Food.position (food g')) (Snake.positions (snake g'))).
Proof.
  split; [|split].
  - intros src fuel excluded cur f cur' Hrun.
    destruct (randomize_position_inv src excluded fuel cur f cur' Hrun)
      as [c [Hpos Hfree]].
    assert (Hgrid : In (Food.position f) Food.grid_cells)
      by (rewrite Hpos; apply sample_in_grid).
    destruct (grid_cell_on_screen _ Hgrid) as [Hs [Hx Hy]].
    repeat split; try assumption. apply point_in_not_In. exact Hfree.
  - intros src fuel run cur g Hreset.
    destruct (reset_game_inv src fuel run cur g Hreset) as [f [cur' [Hrun ->]]].
    destruct (randomize_position_inv _ _ _ _ _ _ Hrun) as [_ [_ Hfree]].
    apply point_in_not_In. exact Hfree.
  - intros src fuel g g' Hact Hhead Hcheck. unfold food_check in Hcheck.
    rewrite Hact, Hhead in Hcheck. cbn [bind] in Hcheck.
    rewrite point_eqb_refl in Hcheck.
    bind_inv Hcheck as [f cur'] with Hrun.
    apply Done_inj in Hcheck. subst g'. cbn [food snake].
    destruct (randomize_position_inv _ _ _ _ _ _ Hrun) as [_ [_ Hfree]].
    apply point_in_not_In. exact Hfree.
Qed.

Lemma randomize_position_excludes_witness :
  Food.randomize_position sweep 5 [(0, 0); (20, 0)] 0
    = Done (Food.make (40, 0), 6%nat) /\
  ~ In (40, 0) [(0, 0); (20, 0)].
Proof.
  split; [reflexivity|].
  apply (proj1 randomize_position_excludes sweep 5%nat [(0, 0); (20, 0)] 0%nat
           (Food.make (40, 0)) 6%nat).
  reflexivity.
Defined.

Lemma sweep_draws_every_cell : draws_every_cell sweep 0.
Proof.
  assert (Hall : forallb
            (fun cell =>
               point_eqb (fst (Food.sample sweep (0 + 2 * sweep_pass cell))) cell)
            Food.grid_cells = true) by (vm_compute; reflexivity).
  intros cell Hin. exists (sweep_pass cell). apply point_eqb_eq.
  rewrite forallb_forall in Hall. apply Hall. exact Hin.
Qed.

(** C8.  When the list of excluded cells is shorter than the number of grid
    cells, [randomize_position] returns: there is a number of passes after
    which the loop has stopped, with the same food whatever larger budget
    the model is given.  The generator is one that draws every cell. *)
Theorem randomize_position_terminates (src : Random.source)
    (excluded : list point) (cur : nat) :
  Z.of_nat (List.length excluded) < grid_columns * grid_rows ->
  draws_every_cell src cur ->
  exists n f cur',
    forall fuel, (n < fuel)%nat ->
      Food.randomize_position src fuel excluded cur = Done (f, cur').
Proof.
  intros Hfew Hfair.
  destruct (free_cell_exists excluded Hfew) as [cell [Hin Hfree]].
  destruct (Hfair cell Hin) as [n Hn].
  rewrite <- Hn in Hfree.
  destruct (randomize_position_stops src excluded n cur Hfree)
    as [m [f [cur' [_ Hrun]]]].
  exists m, f, cur'. exact Hrun.
Qed.

Lemma randomize_position_terminates_witness :
  Z.of_nat (List.length [(0, 0); (20, 0)]) < grid_columns * grid_rows /\
  exists n f cur',
    forall fuel, (n < fuel)%nat ->
      Food.randomize_position sweep fuel [(0, 0); (20, 0)] 0 = Done (f, cur').
Proof.
  split; [reflexivity|].
  apply (randomize_position_terminates sweep [(0, 0); (20, 0)] 0%nat).
  - reflexivity.
  - exact sweep_draws_every_cell.
Defined.

(** With every cell of the grid excluded the loop never stops, whatever the
    generator: the bound on the excluded cells cannot be dropped. *)
Lemma randomize_position_full_grid (excluded : list point) :
  incl Food.grid_cells excluded ->
  forall src fuel cur,
    Food.randomize_position src fuel excluded cur = Unfinished.
Proof.
  intros Hfull src fuel. induction fuel as [|fuel IH]; intros cur; [reflexivity|].
  rewrite randomize_position_pass.
  pose proof (sample_in_grid src cur) as Hin.
  apply Hfull, point_in_In in Hin. rewrite Hin. apply IH.
Qed.

(** Nor can the assumption on the generator: one that repeats an excluded
    cell for ever keeps the loop going. *)
Lemma randomize_position_stuck (fuel : nat) :
  forall cur, Food.randomize_position stuck fuel [(0, 0)] cur = Unfinished.
Proof.
  induction fuel as [|fuel IH]; intros cur; [reflexivity|].
  rewrite randomize_position_pass. apply IH.
Qed.

(** * Reachable sessions *)

Lemma reachable_unfed (src : Random.source) (g : Session) :
  reachable src g -> unfed g.
Proof.
  induction 1 as [fuel cur g Hstart | fuel events g g' _ IH _ Hframe].
  - apply reset_game_unfed in Hstart. tauto.
  - unfold frame in Hframe. destruct (game_active g).
    + apply (active_frame_unfed src fuel events g g' IH Hframe).
    + apply (over_events_unfed src fuel events g g' IH Hframe).
Qed.

(** C10.  The start position is (390, 290).  In every session the program
    reaches, each body cell of the snake is congruent to it modulo
    [SNAKE_BLOCK_SIZE] in both coordinates, both coordinates of the food
    are multiples of [FOOD_BLOCK_SIZE], and the head is not on the food. *)
Theorem lattice_invariant (src : Random.source) (g : Session) :
  reachable src g ->
  (start_x, start_y) = (390, 290) /\
  (forall p, In p (Snake.positions (snake g)) ->
     fst p mod SNAKE_BLOCK_SIZE = 390 mod SNAKE_BLOCK_SIZE /\
     snd p mod SNAKE_BLOCK_SIZE = 290 mod SNAKE_BLOCK_SIZE) /\
  fst (Food.position (food g)) mod FOOD_BLOCK_SIZE = 0 /\
  snd (Food.position (food g)) mod FOOD_BLOCK_SIZE = 0 /\
  (forall head, Snake.get_head_position (snake g) = Done head ->
     head <> Food.position (food g)).
Proof.
  intros Hreach.
  destruct (reachable_unfed src g Hreach) as [[Hsn [Hfx Hfy]] _].
  rewrite Forall_forall in Hsn.
  split; [reflexivity|]. split; [|split; [exact Hfx | split; [exact Hfy|]]].
  - intros p Hin. exact (Hsn p Hin).
  - intros head Hhead. apply head_in_positions in Hhead.
    exact (lattices_disjoint _ _ (Hsn _ Hhead) (conj Hfx Hfy)).
Qed.

Lemma lattice_invariant_witness :
  reachable sweep
    (mkSession (Snake.make 1 [(390, 270)] (0, -1) 0) (Food.make (0, 0))
       true false true 2%nat) /\
  fst (390, 270) mod SNAKE_BLOCK_SIZE = 390 mod SNAKE_BLOCK_SIZE /\
  (390, 270) <> (0, 0).
Proof.
  assert (Hreach : reachable sweep
            (mkSession (Snake.make 1 [(390, 270)] (0, -1) 0) (Food.make (0, 0))
               true false true 2%nat)).
  { apply (reach_frame sweep 0 [KEYDOWN K_UP]
             (mkSession (Snake.init 390 290) (Food.make (0, 0))
                true false true 2%nat)).
    - apply (reach_startup sweep 1 0). reflexivity.
    - reflexivity.
    - reflexivity. }
  destruct (lattice_invariant sweep _ Hreach) as [_ [Hbody [_ [_ Hhead]]]].
  split; [exact Hreach|]. split.
  - apply (Hbody (390, 270)). left. reflexivity.
  - apply (Hhead (390, 270)). reflexivity.
Defined.

(** So no reachable frame ever reaches [grow]: the score stays 0 and the
    target length 1. *)
Lemma reachable_never_eats (src : Random.source) (g : Session) :
  reachable src g ->
  Snake.score (snake g) = 0 /\ Snake.length (snake g) = 1.
Proof.
  intros Hreach. destruct (reachable_unfed src g Hreach) as [_ H]. exact H.
Qed.

(** The snake of a reachable session obeys the discipline of [in_play]. *)
Lemma reachable_in_play (src : Random.source) (g : Session) :
  reachable src g -> in_play (snake g).
Proof.
  induction 1 as [fuel cur g Hstart | fuel events g g' _ IH _ Hframe].
  - apply reset_game_unfed in Hstart. destruct Hstart as [_ [-> _]].
    apply play_new.
  - unfold frame in Hframe. destruct (game_active g).
    + destruct (active_frame_shape src fuel events g g' Hframe)
        as [s [Hm [[-> _] | [_ [-> _]]]]].
      * exact (play_frame _ s false (active_events_in_play events g IH) Hm).
      * exact (play_frame _ s true (active_events_in_play events g IH) Hm).
    + exact (over_events_in_play src fuel events g g' IH Hframe).
Qed.

(** * The food in the next cell *)

(** C1.  Start-up with a generator whose first draws are 20 and 14 leaves
    the snake of [reset_game] (one cell at (390, 290), length 1, heading
    right) and the food at (400, 280), the grid cell right of the cell the
    head is in.  The next frame, with no key pressed and whatever the
    budget, moves the head to (410, 290), inside the food's cell, and eats
    nothing: score 0, target length 1, the same food, the game still
    active.  The frame after it leaves a body of one cell, (430, 290). *)
Theorem food_in_the_next_cell_is_not_eaten :
  exists g0 g1 g2,
    startup beside 1 0 = Done g0 /\
    Snake.positions (snake g0) = [(390, 290)] /\
    Snake.length (snake g0) = 1 /\
    Snake.direction (snake g0) = (1, 0) /\
    Food.position (food g0) = (400, 280) /\
    cell_of (Food.position (food g0))
      = (fst (cell_of (390, 290)) + 1, snd (cell_of (390, 290))) /\
    (forall fuel, frame beside fuel [] g0 = Done g1) /\
    Snake.positions (snake g1) = [(410, 290)] /\
    cell_of (410, 290) = cell_of (Food.position (food g0)) /\
    Snake.score (snake g1) = 0 /\
    Snake.length (snake g1) = 1 /\
    food g1 = food g0 /\
    game_active g1 = true /\
    (forall fuel, frame beside fuel [] g1 = Done g2) /\
    Snake.positions (snake g2) = [(430, 290)] /\
    Snake.score (snake g2) = 0 /\
    Snake.length (snake g2) = 1.
Proof.
  exists (mkSession (Snake.make 1 [(390, 290)] (1, 0) 0) (Food.make (400, 280))
            true false true 2%nat),
         (mkSession (Snake.make 1 [(410, 290)] (1, 0) 0) (Food.make (400, 280))
            true false true 2%nat),
         (mkSession (Snake.make 1 [(430, 290)] (1, 0) 0) (Food.make (400, 280))
            true false true 2%nat).
  repeat split; intros; reflexivity.
Qed.

(** * More on the snake *)

Lemma advance_one (d h : point) :
  advance 1 d h = (fst h + fst d * SNAKE_BLOCK_SIZE,
                   snd h + snd d * SNAKE_BLOCK_SIZE).
Proof. unfold advance. rewrite !Z.mul_1_l. reflexivity. Qed.

(** The body [move] leaves: the advanced head, then the old body with or
    without its last cell. *)
Lemma move_positions (s s' : Snake.t) (h : point) (t : list point) :
  Snake.positions s = h :: t ->
  Snake.move s = Done s' ->
  Snake.positions s' =
    advance 1 (Snake.direction s) h ::
    (if body_length s + 1 >? Snake.length s
     then removelast (h :: t) else h :: t) /\
  Snake.direction s' = Snake.direction s.
Proof.
  intros Hp Hm. rewrite (move_cons s h t Hp) in Hm. apply Done_inj in Hm.
  subst s'. cbv zeta. cbn [Snake.positions Snake.direction].
  rewrite advance_one. unfold body_length. rewrite Hp.
  rewrite (length_cons_Z _ (h :: t)).
  split; [|reflexivity]. destruct (_ >? _); reflexivity.
Qed.

(** X1.  [get_head_position], [move] and [check_collision_with_self] raise
    [IndexError] exactly on a snake whose body is empty; on any other snake
    each of them returns. *)
Theorem methods_raise_on_empty_body (s : Snake.t) :
  (Snake.positions s = [] ->
     Snake.get_head_position s = IndexError /\
     Snake.move s = IndexError /\
     Snake.check_collision_with_self s = IndexError) /\
  (Snake.positions s <> [] ->
     (exists h, Snake.get_head_position s = Done h) /\
     (exists s', Snake.move s = Done s') /\
     (exists b, Snake.check_collision_with_self s = Done b)).
Proof.
  unfold Snake.check_collision_with_self, Snake.move, Snake.get_head_position.
  split; intros Hp.
  - rewrite Hp. repeat split.
  - destruct (Snake.positions s) as [|[hx hy] t]; [congruence|].
    cbn [bind]. destruct (Snake.direction s) as [dx dy].
    repeat split; eexists; reflexivity.
Qed.

Lemma methods_raise_on_empty_body_witness :
  Snake.move (Snake.make 1 [] (1, 0) 0) = IndexError /\
  exists b, Snake.check_collision_with_self (Snake.init 390 290) = Done b.
Proof.
  split.
  - apply (proj1 (methods_raise_on_empty_body (Snake.make 1 [] (1, 0) 0))).
    reflexivity.
  - apply (proj2 (methods_raise_on_empty_body (Snake.init 390 290))).
    discriminate.
Defined.

Lemma collision_after_move_eq (s s' : Snake.t) (h : point) (t : list point) :
  Snake.positions s = h :: t ->
  Snake.move s = Done s' ->
  Snake.check_collision_with_self s' =
  Done (point_in (advance 1 (Snake.direction s) h)
          (if body_length s + 1 >? Snake.length s
           then removelast (h :: t) else h :: t)).
Proof.
  intros Hp Hm. destruct (move_positions s s' h t Hp Hm) as [Hp' _].
  unfold Snake.check_collision_with_self, Snake.get_head_position.
  rewrite Hp'. reflexivity.
Qed.

(** X2.  After [move], [check_collision_with_self] answers whether the new
    head lies in the old body; when [move] dropped the last cell (the body
    was at its target length) that cell does not count. *)
Theorem collision_after_move (s : Snake.t) (h : point) (t : list point) :
  Snake.positions s = h :: t ->
  exists s',
    Snake.move s = Done s' /\
    (body_length s + 1 > Snake.length s ->
       Snake.check_collision_with_self s'
         = Done (point_in (advance 1 (Snake.direction s) h)
                   (removelast (h :: t)))) /\
    (body_length s + 1 <= Snake.length s ->
       Snake.check_collision_with_self s'
         = Done (point_in (advance 1 (Snake.direction s) h) (h :: t))).
Proof.
  intros Hp. eexists. split; [apply (move_cons s h t Hp)|].
  pose proof (collision_after_move_eq s _ h t Hp (move_cons s h t Hp)) as Hc.
  destruct (Z.gtb_spec (body_length s + 1) (Snake.length s)) as [Hgt | Hle].
  - split; [intros _; exact Hc | intros Hcontra; lia].
  - split; [intros Hcontra; lia | intros _; exact Hc].
Qed.

Lemma collision_after_move_witness :
  exists s',
    Snake.move (Snake.make 4 [(50, 10); (50, 30); (30, 30); (30, 10)] (-1, 0) 3)
      = Done s' /\
    Snake.check_collision_with_self s' = Done false.
Proof.
  destruct (collision_after_move
              (Snake.make 4 [(50, 10); (50, 30); (30, 30); (30, 10)] (-1, 0) 3)
              (50, 10) [(50, 30); (30, 30); (30, 10)] eq_refl)
    as [s' [Hm [Htrim _]]].
  exists s'. split; [exact Hm|]. rewrite Htrim; reflexivity.
Defined.

Lemma last_not_in_removelast (l : list point) (d : point) :
  NoDup l -> l <> [] -> ~ In (last l d) (removelast l).
Proof.
  intros Hnd Hne Hin.
  rewrite (app_removelast_last d Hne) in Hnd at 1.
  apply NoDup_remove_2 in Hnd. rewrite app_nil_r in Hnd.
  exact (Hnd Hin).
Qed.

(** X3.  When the head steps onto the cell the tail occupies, on a body
    without repeated cells: if the body is at its target length the tail
    moves away in the same [move] and there is no collision; if the snake
    is still growing the tail stays and the head collides with it. *)
Theorem stepping_on_the_tail (s : Snake.t) (h : point) (t : list point) :
  Snake.positions s = h :: t ->
  NoDup (h :: t) ->
  advance 1 (Snake.direction s) h = last (h :: t) h ->
  exists s',
    Snake.move s = Done s' /\
    Snake.check_collision_with_self s'
      = Done (negb (body_length s + 1 >? Snake.length s)).
Proof.
  intros Hp Hnd Hlast. eexists. split; [apply (move_cons s h t Hp)|].
  rewrite (collision_after_move_eq s _ h t Hp (move_cons s h t Hp)).
  f_equal. rewrite Hlast. destruct (_ >? _); cbn [negb].
  - apply point_in_not_In. apply last_not_in_removelast; [exact Hnd | discriminate].
  - apply point_in_In.
    rewrite (app_removelast_last h (l := h :: t)) at 2 by discriminate.
    apply in_or_app. right. left. reflexivity.
Qed.

Lemma stepping_on_the_tail_witness :
  exists s',
    Snake.move (Snake.make 4 [(50, 10); (50, 30); (30, 30); (30, 10)] (-1, 0) 3)
      = Done s' /\
    Snake.check_collision_with_self s' = Done false.
Proof.
  destruct (stepping_on_the_tail
              (Snake.make 4 [(50, 10); (50, 30); (30, 30); (30, 10)] (-1, 0) 3)
              (50, 10) [(50, 30); (30, 30); (30, 10)] eq_refl)
    as [s' [Hm Hc]].
  - apply nodupb_NoDup. reflexivity.
  - reflexivity.
  - exists s'. split; [exact Hm | exact Hc].
Defined.

(** X4.  Whatever it is called with, [change_direction] never leaves the
    snake heading opposite to where it was heading (the zero vector, its
    own opposite, apart). *)
Theorem change_direction_never_reverses (s : Snake.t) (d : point) :
  Snake.direction s <> (0, 0) ->
  Snake.direction (Snake.change_direction s d) <> opposite (Snake.direction s).
Proof.
  unfold Snake.change_direction, opposite. intros Hnz.
  destruct (Snake.direction s) as [dx dy] eqn:Hdir. destruct d as [ex ey].
  cbn [fst snd].
  destruct (point_eqb (ex * -1, ey * -1) (dx, dy)) eqn:Heq.
  - rewrite Hdir. intros [= Hx Hy]. apply Hnz. f_equal; lia.
  - cbn [Snake.direction]. intros [= Hx Hy].
    assert (Htrue : point_eqb (ex * -1, ey * -1) (dx, dy) = true).
    { apply point_eqb_eq. f_equal; lia. }
    congruence.
Qed.

Lemma change_direction_never_reverses_witness :
  Snake.direction (Snake.change_direction (Snake.init 390 290) (-1, 0))
    <> opposite (Snake.direction (Snake.init 390 290)).
Proof.
  apply (change_direction_never_reverses (Snake.init 390 290) (-1, 0)).
  discriminate.
Defined.

Lemma grows_cons (c : call) (cs : list call) :
  grows (c :: cs) = (if is_grow c then 1 else 0) + grows cs.
Proof.
  unfold grows. cbn [filter]. destruct (is_grow c).
  - rewrite length_cons_Z. lia.
  - lia.
Qed.

Lemma do_call_counts (s s' : Snake.t) (c : call) :
  do_call s c = Done s' ->
  Snake.score s' = Snake.score s + (if is_grow c then 1 else 0) /\
  Snake.length s' = Snake.length s + (if is_grow c then 1 else 0).
Proof.
  destruct c as [| |d]; cbn [do_call is_grow]; intros H.
  - destruct (move_body_length s s' H) as [_ [Hl [Hs _]]]. lia.
  - apply Done_inj in H. subst s'. cbn. lia.
  - apply Done_inj in H. subst s'.
    destruct (change_direction_keeps s d) as [Hl [_ Hs]]. lia.
Qed.

(** X5.  Over any sequence of method calls that returns, [score] and
    [length] both rise by the number of [grow] calls among them; on a snake
    built by [Snake.init], [length] is [score + 1] throughout. *)
Theorem score_counts_grows (cs : list call) :
  forall s s',
    do_calls s cs = Done s' ->
    Snake.score s' = Snake.score s + grows cs /\
    Snake.length s' = Snake.length s + grows cs /\
    (Snake.length s = Snake.score s + 1 ->
     Snake.length s' = Snake.score s' + 1).
Proof.
  induction cs as [|c cs IH]; intros s s' Hrun; cbn [do_calls] in Hrun.
  - apply Done_inj in Hrun. subst s'. change (grows []) with 0.
    repeat split; lia.
  - bind_inv Hrun as s1 with Hc.
    destruct (do_call_counts s s1 c Hc) as [Hs Hl].
    destruct (IH s1 s' Hrun) as [Hs' [Hl' _]].
    rewrite grows_cons. repeat split; lia.
Qed.

Lemma score_counts_grows_witness :
  Snake.score (Snake.make 3 [(410, 290); (390, 290)] (0, 1) 2) = 0 + 2.
Proof.
  apply (score_counts_grows
           [CallGrow; CallMove; CallChangeDirection (0, 1); CallGrow]
           (Snake.init 390 290)
           (Snake.make 3 [(410, 290); (390, 290)] (0, 1) 2)).
  reflexivity.
Defined.

Lemma advance_advance (a b : Z) (d h : point) :
  advance a d (advance b d h) = advance (a + b) d h.
Proof. unfold advance. cbn [fst snd]. f_equal; lia. Qed.

(** X6.  [n] calls of [move] in a row, on a snake with a head whose body is
    not longer than [length], all return; the body grows by one cell per
    call until it has [length] cells and then stays there, the head ends
    [n] cells further along the direction, and direction, score and target
    length are untouched. *)
Theorem moving_n_times (n : nat) :
  forall (s : Snake.t) (h : point) (t : list point),
    Snake.positions s = h :: t ->
    body_length s <= Snake.length s ->
    exists s',
      do_calls s (repeat CallMove n) = Done s' /\
      body_length s' = Z.min (body_length s + Z.of_nat n) (Snake.length s) /\
      Snake.get_head_position s'
        = Done (advance (Z.of_nat n) (Snake.direction s) h) /\
      Snake.direction s' = Snake.direction s /\
      Snake.length s' = Snake.length s /\
      Snake.score s' = Snake.score s.
Proof.
  induction n as [|n IH]; intros s h t Hp Hle.
  - exists s. cbn [repeat do_calls]. repeat split.
    + change (Z.of_nat 0) with 0. lia.
    + unfold Snake.get_head_position, advance. rewrite Hp.
      destruct h as [hx hy]. cbn [fst snd Z.of_nat]. do 2 f_equal; lia.
  - cbn [repeat do_calls do_call].
    pose proof (move_cons s h t Hp) as Hm. rewrite Hm. cbn [bind].
    destruct (move_positions s _ h t Hp Hm) as [Hp1 Hd1].
    destruct (move_body_length s _ Hm) as [_ [Hl1 [Hs1 Hb1]]].
    match type of Hm with _ = Done ?r => set (s1 := r) in * end.
    assert (Hle1 : body_length s1 <= Snake.length s1).
    { rewrite Hb1, Hl1.
      destruct (Z.gtb_spec (body_length s + 1) (Snake.length s)); lia. }
    destruct (IH s1 _ _ Hp1 Hle1) as [s' [Hrun [Hb [Hh [Hd [Hl Hs]]]]]].
    exists s'. split; [exact Hrun|].
    rewrite Hd1 in Hh. rewrite advance_advance in Hh.
    repeat split; try congruence.
    + rewrite Hb, Hb1, Hl1.
      destruct (Z.gtb_spec (body_length s + 1) (Snake.length s)); lia.
    + rewrite Hh. do 2 f_equal. lia.
Qed.

Lemma moving_n_times_witness :
  exists s',
    do_calls (Snake.make 3 [(390, 290)] (0, -1) 2) (repeat CallMove 5) = Done s' /\
    body_length s' = 3 /\
    Snake.get_head_position s' = Done (390, 190).
Proof.
  destruct (moving_n_times 5 (Snake.make 3 [(390, 290)] (0, -1) 2)
              (390, 290) [] eq_refl)
    as [s' [Hrun [Hb [Hh _]]]].
  - cbv. discriminate.
  - exists s'. split; [exact Hrun|]. split; [exact Hb | exact Hh].
Defined.

(** * More on the food *)

(** X7.  A call of [randomize_position] that returns has taken the first
    drawn cell that is not excluded: every earlier pass drew an excluded
    cell, and the generator has advanced by two draws per pass. *)
Theorem randomize_position_first_free (src : Random.source) (fuel : nat)
    (excluded : list point) :
  forall cur f cur',
    Food.randomize_position src fuel excluded cur = Done (f, cur') ->
    exists k,
      (k < fuel)%nat /\
      cur' = (cur + 2 * S k)%nat /\
      Food.position f = fst (Food.sample src (cur + 2 * k)) /\
      point_in (Food.position f) excluded = false /\
      forall j, (j < k)%nat ->
        point_in (fst (Food.sample src (cur + 2 * j))) excluded = true.
Proof.
  induction fuel as [|fuel IH]; intros cur f cur' Hrun; [discriminate|].
  rewrite randomize_position_pass in Hrun.
  destruct (point_in (fst (Food.sample src cur)) excluded) eqn:Hhere.
  - destruct (IH _ _ _ Hrun) as [k [Hk [Hcur [Hpos [Hfree Hbefore]]]]].
    exists (S k). split; [lia|]. split; [lia|].
    replace (cur + 2 * S k)%nat with (S (S cur) + 2 * k)%nat by lia.
    split; [exact Hpos|]. split; [exact Hfree|].
    intros [|j] Hj.
    + replace (cur + 2 * 0)%nat with cur by lia. exact Hhere.
    + replace (cur + 2 * S j)%nat with (S (S cur) + 2 * j)%nat by lia.
      apply Hbefore. lia.
  - apply Done_inj in Hrun. injection Hrun as <- <-.
    exists 0%nat. replace (cur + 2 * 0)%nat with cur by lia.
    cbn [Food.position]. split; [lia|]. split; [lia|].
    split; [reflexivity|]. split; [exact Hhere|]. intros j Hj. lia.
Qed.

Lemma randomize_position_first_free_witness :
  exists k,
    (k < 5)%nat /\ 6%nat = (0 + 2 * S k)%nat /\
    (40, 0) = fst (Food.sample sweep (0 + 2 * k)).
Proof.
  destruct (randomize_position_first_free sweep 5 [(0, 0); (20, 0)] 0%nat
              (Food.make (40, 0)) 6%nat eq_refl)
    as [k [Hk [Hcur [Hpos _]]]].
  exists k. split; [exact Hk|]. split; [exact Hcur | exact Hpos].
Defined.

(** * More on the frame *)

Section ActiveFrame.

Variables (src : Random.source) (fuel : nat).

Lemma active_frame_cases (events : list event) (g : Session) (s : Snake.t)
    (head : point) :
  game_active g = true ->
  Snake.move (snake (fold_left active_event events g)) = Done s ->
  Snake.get_head_position s = Done head ->
  frame src fuel events g =
  if survives s head
  then food_check src fuel (set_snake (fold_left active_event events g) s)
  else Done (end_game (set_snake (fold_left active_event events g) s)).
Proof.
  intros Hact Hmove Hhead. unfold survives.
  destruct (on_screen head) eqn:Hon; cbn [andb].
  - destruct (point_in head (tl (Snake.positions s))) eqn:Hhit; cbn [negb].
    + destruct (active_events_keep events g) as [_ [_ [Ha _]]].
      unfold frame, active_frame. rewrite Hact, Hmove. cbn [bind].
      set (g1 := set_snake (fold_left active_event events g) s).
      unfold boundary_check. change (snake g1) with s.
      rewrite Hhead. cbn [bind]. rewrite Hon. cbn [negb].
      unfold self_check, Snake.check_collision_with_self.
      change (game_active g1)
        with (game_active (fold_left active_event events g)).
      change (snake g1) with s.
      rewrite Ha, Hact, Hhead. cbn [bind]. rewrite Hhit.
      apply (checks_skipped_when_over src fuel (end_game g1) eq_refl).
    + apply (active_frame_alive src fuel events g s head); assumption.
  - unfold frame, active_frame. rewrite Hact, Hmove. cbn [bind].
    set (g1 := set_snake (fold_left active_event events g) s).
    unfold boundary_check. change (snake g1) with s.
    rewrite Hhead. cbn [bind]. rewrite Hon. cbn [negb].
    destruct (checks_skipped_when_over src fuel (end_game g1) eq_refl)
      as [Hself Hfood].
    rewrite Hself. cbn [bind]. exact Hfood.
Qed.

(** X8.  What a frame of the active branch that returns has done, in terms
    of the head [move] produced: the game stays active exactly when that
    head is on screen and off the rest of the body; the food is eaten
    exactly when, in addition, the head is on it, and then score and target
    length rise by 1 and the new food is off the body; otherwise score,
    target length, food and generator are as before.  The body is the one
    [move] left in every case. *)
Theorem active_frame_outcome (events : list event) (g g' : Session)
    (s : Snake.t) (head : point) :
  game_active g = true ->
  Snake.move (snake (fold_left active_event events g)) = Done s ->
  Snake.get_head_position s = Done head ->
  frame src fuel events g = Done g' ->
  let alive := survives s head in
  let eaten := alive && point_eqb head (Food.position (food g)) in
  game_active g' = alive /\
  game_over_state g' = (game_over_state g || negb alive) /\
  Snake.positions (snake g') = Snake.positions s /\
  Snake.score (snake g') = Snake.score (snake g) + (if eaten then 1 else 0) /\
  Snake.length (snake g') = Snake.length (snake g) + (if eaten then 1 else 0) /\
  (eaten = false -> food g' = food g /\ rng g' = rng g) /\
  (eaten = true -> ~ In (Food.position (food g')) (Snake.positions s)).
Proof.
  intros Hact Hmove Hhead Hframe.
  rewrite (active_frame_cases events g s head Hact Hmove Hhead) in Hframe.
  destruct (active_events_keep events g) as [Kf [Kr [Ka [Ko [_ [Kl Ks]]]]]].
  destruct (move_body_length _ _ Hmove) as [_ [Ml [Ms _]]].
  cbv zeta. destruct (survives s head); cbn [andb negb].
  - unfold food_check in Hframe.
    cbn [set_snake game_active snake food rng game_over_state running]
      in Hframe.
    rewrite Ka, Hact, Hhead, Kf in Hframe. cbn [bind] in Hframe.
    destruct (point_eqb head (Food.position (food g))) eqn:Heq.
    + bind_inv Hframe as [f cur'] with Hrun. apply Done_inj in Hframe.
      subst g'. cbn [game_active game_over_state snake food rng
                     Snake.grow Snake.positions Snake.score Snake.length].
      rewrite Ko, orb_false_r.
      repeat split; try congruence; try lia.
      intros _.
      destruct (randomize_position_inv _ _ _ _ _ _ Hrun) as [_ [_ Hfree]].
        apply point_in_not_In. exact Hfree.
    + apply Done_inj in Hframe. subst g'.
      cbn [set_snake game_active game_over_state snake food rng].
      rewrite Ko, orb_false_r.
      repeat split; try congruence; try lia.
  - apply Done_inj in Hframe. subst g'.
    cbn [end_game set_snake game_active game_over_state snake food rng].
    rewrite orb_true_r.
    repeat split; try congruence; try lia.
Qed.

(** X9.  A frame of the active branch entered with a body without repeated
    cells and left with the game still active leaves a body without
    repeated cells. *)
Theorem live_body_has_no_repeats (events : list event) (g g' : Session) :
  game_active g = true ->
  NoDup (Snake.positions (snake g)) ->
  frame src fuel events g = Done g' ->
  game_active g' = true ->
  NoDup (Snake.positions (snake g')).
Proof.
  intros Hact Hnd Hframe Hact'.
  assert (Hshape := Hframe). unfold frame in Hshape. rewrite Hact in Hshape.
  destruct (active_frame_shape src fuel events g g' Hshape) as [s [Hm Hcases]].
  destruct (active_events_keep events g) as [_ [_ [_ [_ [Kp _]]]]].
  destruct (move_inv _ _ Hm) as [h [t Hp]].
  destruct (move_positions _ _ h t Hp Hm) as [Hp' _].
  assert (Hhead : Snake.get_head_position s
                  = Done (advance 1
                            (Snake.direction
                               (snake (fold_left active_event events g))) h)).
  { unfold Snake.get_head_position. rewrite Hp'. reflexivity. }
  rewrite (active_frame_cases events g s _ Hact Hm Hhead) in Hframe.
  assert (Hpos : Snake.positions (snake g') = Snake.positions s).
  { destruct Hcases as [[-> _] | [_ [-> _]]]; reflexivity. }
  rewrite Hpos. unfold survives in Hframe.
  destruct (on_screen _) eqn:Hon; cbn [andb] in Hframe;
    [|apply Done_inj in Hframe; subst g'; discriminate Hact'].
  destruct (point_in _ (tl (Snake.positions s))) eqn:Hhit; cbn [negb] in Hframe;
    [apply Done_inj in Hframe; subst g'; discriminate Hact'|].
  rewrite Hp' in Hhit |- *. cbn [tl] in Hhit.
  constructor; [apply point_in_not_In; exact Hhit|].
  rewrite Kp in Hp. rewrite Hp in Hnd.
  destruct (_ >? _); [|exact Hnd].
  rewrite (app_removelast_last h (l := h :: t)) in Hnd by discriminate.
  apply NoDup_remove_1 in Hnd. rewrite app_nil_r in Hnd. exact Hnd.
Qed.

End ActiveFrame.

Lemma active_frame_outcome_witness :
  Snake.score (Snake.make 4 [(70, 10); (50, 10); (30, 10)] (1, 0) 3) = 2 + 1 /\
  ~ In (0, 0) [(70, 10); (50, 10); (30, 10)].
Proof.
  destruct (active_frame_outcome sweep 1 []
              (mkSession (Snake.make 3 [(50, 10); (30, 10); (10, 10)] (1, 0) 2)
                 (Food.make (70, 10)) true false true 0%nat)
              (mkSession (Snake.make 4 [(70, 10); (50, 10); (30, 10)] (1, 0) 3)
                 (Food.make (0, 0)) true false true 2%nat)
              (Snake.make 3 [(70, 10); (50, 10); (30, 10)] (1, 0) 2) (70, 10)
              eq_refl eq_refl eq_refl eq_refl)
    as [_ [_ [_ [Hscore [_ [_ Hfood]]]]]].
  split; [exact Hscore | exact (Hfood eq_refl)].
Defined.

Lemma live_body_has_no_repeats_witness :
  NoDup [(70, 10); (50, 10); (30, 10)].
Proof.
  apply (live_body_has_no_repeats sweep 0 []
           (mkSession (Snake.make 3 [(50, 10); (30, 10); (10, 10)] (1, 0) 2)
              (Food.make (0, 0)) true false true 0%nat)
           (mkSession (Snake.make 3 [(70, 10); (50, 10); (30, 10)] (1, 0) 2)
              (Food.make (0, 0)) true false true 0%nat)).
  - reflexivity.
  - apply nodupb_NoDup. reflexivity.
  - reflexivity.
  - reflexivity.
Defined.

(** ** Two keys in one frame *)

Lemma active_event_key (g : Session) (k : key) :
  active_event g (KEYDOWN k) =
  match key_direction k with
  | Some d => set_snake g (Snake.change_direction (snake g) d)
  | None => g
  end.
Proof. destruct k; reflexivity. Qed.

Lemma opposite_involutive (d : point) : opposite (opposite d) = d.
Proof. destruct d as [x y]. unfold opposite. cbn [fst snd]. f_equal; lia. Qed.

(** A direction other than the opposite of the current one is taken. *)
Lemma change_direction_accepts (s : Snake.t) (d : point) :
  d <> opposite (Snake.direction s) ->
  Snake.direction (Snake.change_direction s d) = d.
Proof.
  intros Hne. unfold Snake.change_direction.
  destruct (point_eqb _ _) eqn:Heq; [|reflexivity].
  exfalso. apply Hne. apply point_eqb_eq in Heq.
  destruct d as [x y]. unfold opposite. rewrite <- Heq. cbn [fst snd].
  f_equal; lia.
Qed.

Lemma two_keys_direction (g : Session) (k1 k2 : key) (p : point) :
  key_direction k1 = Some p ->
  key_direction k2 = Some (opposite (Snake.direction (snake g))) ->
  p <> Snake.direction (snake g) ->
  p <> opposite (Snake.direction (snake g)) ->
  Snake.direction (snake (fold_left active_event [KEYDOWN k1; KEYDOWN k2] g))
    = opposite (Snake.direction (snake g)).
Proof.
  intros Hk1 Hk2 Hpd Hpo. cbn [fold_left].
  rewrite !active_event_key, Hk1. cbn [set_snake snake]. rewrite Hk2.
  cbn [snake].
  assert (Hfirst : Snake.direction (Snake.change_direction (snake g) p) = p)
    by (apply change_direction_accepts; exact Hpo).
  apply change_direction_accepts. rewrite Hfirst.
  intros Heq. apply Hpd. rewrite <- (opposite_involutive p), <- Heq.
  apply opposite_involutive.
Qed.

(** X10.  The reversal guard looks at one key press at a time: within one
    frame, a press of a key for a sideways direction followed by a press of
    the key for the opposite of the current direction leaves the snake
    heading opposite to where it was heading. *)
Theorem two_keys_reverse (g : Session) (k1 k2 : key) (p : point) :
  key_direction k1 = Some p ->
  key_direction k2 = Some (opposite (Snake.direction (snake g))) ->
  p <> Snake.direction (snake g) ->
  p <> opposite (Snake.direction (snake g)) ->
  Snake.direction (snake (fold_left active_event [KEYDOWN k1; KEYDOWN k2] g))
    = opposite (Snake.direction (snake g)) /\
  Snake.positions (snake (fold_left active_event [KEYDOWN k1; KEYDOWN k2] g))
    = Snake.positions (snake g).
Proof.
  intros Hk1 Hk2 Hpd Hpo. split.
  - exact (two_keys_direction g k1 k2 p Hk1 Hk2 Hpd Hpo).
  - destruct (active_events_keep [KEYDOWN k1; KEYDOWN k2] g)
      as [_ [_ [_ [_ [Kp _]]]]]. exact Kp.
Qed.

Lemma two_keys_reverse_witness :
  Snake.direction
    (snake (fold_left active_event [KEYDOWN K_UP; KEYDOWN K_LEFT]
              (mkSession (Snake.init 390 290) (Food.make (0, 0)) true false
                 true 2%nat)))
  = (-1, 0).
Proof.
  apply (two_keys_reverse
           (mkSession (Snake.init 390 290) (Food.make (0, 0)) true false
              true 2%nat) K_UP K_LEFT (0, -1));
    solve [reflexivity | discriminate].
Defined.

Section Reversal.

Variables (src : Random.source) (fuel : nat).

(** X11.  When such a pair of key presses turns round a snake of three
    cells or more whose second cell is right behind the head, the frame
    ends the game: the head moves onto the second cell (or off the
    screen), with score and target length as before. *)
Theorem reversing_a_long_snake_ends_the_game (g : Session) (k1 k2 : key)
    (p h n : point) (t : list point) :
  game_active g = true ->
  Snake.positions (snake g) = h :: n :: t ->
  t <> [] ->
  n = advance (-1) (Snake.direction (snake g)) h ->
  key_direction k1 = Some p ->
  key_direction k2 = Some (opposite (Snake.direction (snake g))) ->
  p <> Snake.direction (snake g) ->
  p <> opposite (Snake.direction (snake g)) ->
  exists g',
    frame src fuel [KEYDOWN k1; KEYDOWN k2] g = Done g' /\
    game_active g' = false /\ game_over_state g' = true /\
    Snake.get_head_position (snake g') = Done n /\
    Snake.score (snake g') = Snake.score (snake g) /\
    Snake.length (snake g') = Snake.length (snake g).
Proof.
  intros Hact Hp Ht Hn Hk1 Hk2 Hpd Hpo.
  set (events := [KEYDOWN k1; KEYDOWN k2]).
  destruct (active_events_keep events g) as [_ [_ [_ [_ [Kp [Kl Ks]]]]]].
  pose proof (two_keys_direction g k1 k2 p Hk1 Hk2 Hpd Hpo) as Hdir.
  fold events in Hdir.
  set (g0 := fold_left active_event events g) in *.
  rewrite Hp in Kp.
  pose proof (move_cons (snake g0) h (n :: t) Kp) as Hm.
  destruct (move_positions _ _ h (n :: t) Kp Hm) as [Hp' _].
  destruct (move_body_length _ _ Hm) as [_ [Ml [Ms _]]].
  match type of Hm with _ = Done ?r => set (s := r) in * end.
  assert (Hnew : advance 1 (Snake.direction (snake g0)) h = n).
  { rewrite Hdir, Hn. unfold advance, opposite. cbn [fst snd]. f_equal; lia. }
  rewrite Hnew in Hp'.
  assert (Hhead : Snake.get_head_position s = Done n).
  { unfold Snake.get_head_position. rewrite Hp'. reflexivity. }
  assert (Hdead : survives s n = false).
  { unfold survives. rewrite Hp'. cbn [tl].
    assert (Hin : point_in n
              (if body_length (snake g0) + 1 >? Snake.length (snake g0)
               then removelast (h :: n :: t) else h :: n :: t) = true).
    { apply point_in_In. destruct (_ >? _).
      - destruct t as [|m t']; [congruence|].
        right. left. reflexivity.
      - right. left. reflexivity. }
    rewrite Hin. apply andb_false_r. }
  exists (end_game (set_snake g0 s)).
  rewrite (active_frame_cases src fuel events g s n Hact Hm Hhead), Hdead.
  cbn [end_game set_snake game_active game_over_state snake].
  repeat split; try assumption; congruence.
Qed.

(** X12.  The same pair of key presses on a snake of exactly two cells at
    its target length turns it round on the spot: the head takes the cell
    the tail leaves, there is no collision, and (the new head being on
    screen and off the food) the game goes on. *)
Theorem reversing_a_two_cell_snake_flips_it (g : Session) (k1 k2 : key)
    (p h n : point) :
  game_active g = true ->
  Snake.positions (snake g) = [h; n] ->
  Snake.length (snake g) = 2 ->
  n = advance (-1) (Snake.direction (snake g)) h ->
  n <> h ->
  on_screen n = true ->
  Food.position (food g) <> n ->
  key_direction k1 = Some p ->
  key_direction k2 = Some (opposite (Snake.direction (snake g))) ->
  p <> Snake.direction (snake g) ->
  p <> opposite (Snake.direction (snake g)) ->
  exists g',
    frame src fuel [KEYDOWN k1; KEYDOWN k2] g = Done g' /\
    game_active g' = true /\
    Snake.positions (snake g') = [n; h] /\
    Snake.direction (snake g') = opposite (Snake.direction (snake g)).
Proof.
  intros Hact Hp Hlen Hn Hnh Hon Hfood Hk1 Hk2 Hpd Hpo.
  set (events := [KEYDOWN k1; KEYDOWN k2]).
  destruct (active_events_keep events g) as [Kf [_ [Ka [_ [Kp [Kl _]]]]]].
  pose proof (two_keys_direction g k1 k2 p Hk1 Hk2 Hpd Hpo) as Hdir.
  fold events in Hdir.
  set (g0 := fold_left active_event events g) in *.
  rewrite Hp in Kp.
  pose proof (move_cons (snake g0) h [n] Kp) as Hm.
  destruct (move_positions _ _ h [n] Kp Hm) as [Hp' Hd'].
  match type of Hm with _ = Done ?r => set (s := r) in * end.
  assert (Hnew : advance 1 (Snake.direction (snake g0)) h = n).
  { rewrite Hdir, Hn. unfold advance, opposite. cbn [fst snd]. f_equal; lia. }
  assert (Htrim : (body_length (snake g0) + 1 >? Snake.length (snake g0)) = true).
  { unfold body_length. rewrite Kp, Kl, Hlen. reflexivity. }
  rewrite Hnew, Htrim in Hp'. cbn [removelast] in Hp'.
  assert (Hhead : Snake.get_head_position s = Done n).
  { unfold Snake.get_head_position. rewrite Hp'. reflexivity. }
  assert (Halive : survives s n = true).
  { unfold survives. rewrite Hp', Hon. cbn [tl point_in].
    destruct (point_eqb n h) eqn:Heq; [|reflexivity].
    apply point_eqb_eq in Heq. contradiction. }
  exists (set_snake g0 s).
  rewrite (active_frame_cases src fuel events g s n Hact Hm Hhead), Halive.
  fold g0. unfold food_check.
  change (game_active (set_snake g0 s)) with (game_active g0).
  change (snake (set_snake g0 s)) with s.
  change (food (set_snake g0 s)) with (food g0).
  rewrite Ka, Hact, Hhead, Kf. cbn [bind].
  destruct (point_eqb n (Food.position (food g))) eqn:Heq.
  - apply point_eqb_eq in Heq. exfalso. apply Hfood. symmetry. exact Heq.
  - repeat split; try assumption; congruence.
Qed.

End Reversal.

Lemma reversing_a_long_snake_ends_the_game_witness :
  exists g',
    frame sweep 0 [KEYDOWN K_UP; KEYDOWN K_LEFT]
      (mkSession (Snake.make 3 [(50, 30); (30, 30); (10, 30)] (1, 0) 2)
         (Food.make (0, 0)) true false true 0%nat) = Done g' /\
    game_active g' = false.
Proof.
  destruct (reversing_a_long_snake_ends_the_game sweep 0
              (mkSession (Snake.make 3 [(50, 30); (30, 30); (10, 30)] (1, 0) 2)
                 (Food.make (0, 0)) true false true 0%nat)
              K_UP K_LEFT (0, -1) (50, 30) (30, 30) [(10, 30)])
    as [g' [Hframe [Hover _]]];
    try solve [reflexivity | discriminate].
  exists g'. split; [exact Hframe | exact Hover].
Defined.

Lemma reversing_a_two_cell_snake_flips_it_witness :
  exists g',
    frame sweep 0 [KEYDOWN K_UP; KEYDOWN K_LEFT]
      (mkSession (Snake.make 2 [(50, 30); (30, 30)] (1, 0) 1)
         (Food.make (0, 0)) true false true 0%nat) = Done g' /\
    Snake.positions (snake g') = [(30, 30); (50, 30)].
Proof.
  destruct (reversing_a_two_cell_snake_flips_it sweep 0
              (mkSession (Snake.make 2 [(50, 30); (30, 30)] (1, 0) 1)
                 (Food.make (0, 0)) true false true 0%nat)
              K_UP K_LEFT (0, -1) (50, 30) (30, 30))
    as [g' [Hframe [_ [Hpos _]]]];
    try solve [reflexivity | discriminate].
  exists g'. split; [exact Hframe | exact Hpos].
Defined.

(** ** Quitting and restarting *)

Lemma active_events_running (events : list event) :
  forall g,
    running (fold_left active_event events g)
      = running g && forallb (fun e => negb (is_quit e)) events.
Proof.
  induction events as [|e events IH]; intros g; cbn [fold_left forallb].
  - symmetry. apply andb_true_r.
  - rewrite IH. destruct e as [|k|].
    + cbn [active_event set_running running is_quit negb andb].
      rewrite andb_false_r. reflexivity.
    + rewrite active_event_key.
      destruct (key_direction k); reflexivity.
    + reflexivity.
Qed.

Section Running.

Variables (src : Random.source) (fuel : nat).

Lemma boundary_check_running (g g1 : Session) :
  boundary_check g = Done g1 -> running g1 = running g.
Proof.
  unfold boundary_check. intros H. bind_inv H as head with Hhead.
  apply Done_inj in H. subst g1. destruct (negb (on_screen head)); reflexivity.
Qed.

Lemma self_check_running (g g2 : Session) :
  self_check g = Done g2 -> running g2 = running g.
Proof.
  unfold self_check. intros H. destruct (game_active g).
  - bind_inv H as hit with Hhit. apply Done_inj in H. subst g2.
    destruct hit; reflexivity.
  - apply Done_inj in H. subst g2. reflexivity.
Qed.

Lemma food_check_running (g g' : Session) :
  food_check src fuel g = Done g' -> running g' = running g.
Proof.
  unfold food_check. intros H.
  destruct (game_active g); [|apply Done_inj in H; subst g'; reflexivity].
  bind_inv H as head with Hhead.
  destruct (point_eqb _ _); [|apply Done_inj in H; subst g'; reflexivity].
  bind_inv H as [f cur'] with Hrun. apply Done_inj in H. subst g'.
  reflexivity.
Qed.

Lemma over_events_running (events : list event) :
  forall g g',
    over_events src fuel events g = Done g' ->
    running g' = running g && forallb (fun e => negb (is_quit_or_q e)) events.
Proof.
  induction events as [|e events IH]; intros g g' Hrun;
    cbn [over_events forallb] in *.
  - apply Done_inj in Hrun. subst g'. symmetry. apply andb_true_r.
  - bind_inv Hrun as g1 with He. rewrite (IH g1 g' Hrun).
    assert (H1 : running g1 = running g && negb (is_quit_or_q e)).
    { destruct e as [|k|]; cbn [over_event] in He.
      - apply Done_inj in He. subst g1. cbn. rewrite andb_false_r. reflexivity.
      - destruct k; try (apply Done_inj in He; subst g1; cbn;
                         rewrite ?andb_true_r, ?andb_false_r; reflexivity).
        destruct (reset_game_inv src fuel _ _ _ He) as [f [cur' [_ ->]]].
        cbn. rewrite andb_true_r. reflexivity.
      - apply Done_inj in He. subst g1. cbn. rewrite andb_true_r. reflexivity. }
    rewrite H1, andb_assoc. reflexivity.
Qed.

(** X13.  A frame leaves [running] true only if it was true before and the
    frame saw no quitting event: QUIT (the window's close button) in
    either branch, the Q key on the game-over screen only.  During play Q
    is not a quitting key; a restart does not touch the flag; nothing sets
    it back to true. *)
Theorem running_after_a_frame (events : list event) (g g' : Session) :
  frame src fuel events g = Done g' ->
  running g' =
  running g &&
  forallb (fun e => negb (if game_active g then is_quit e
                          else is_quit_or_q e)) events.
Proof.
  unfold frame. destruct (game_active g); intros Hframe.
  - unfold active_frame in Hframe.
    bind_inv Hframe as s with Hm. bind_inv Hframe as g1 with Hb.
    bind_inv Hframe as g2 with Hs.
    rewrite (food_check_running _ _ Hframe), (self_check_running _ _ Hs),
      (boundary_check_running _ _ Hb).
    cbn [set_snake running]. apply active_events_running.
  - apply (over_events_running events g g' Hframe).
Qed.

Lemma reset_game_first_pass (run : bool) (cur : nat) :
  reset_game src (S fuel) run cur
  = Done (mkSession (Snake.init start_x start_y)
            (Food.make (fst (Food.sample src cur))) true false run (S (S cur))).
Proof.
  unfold reset_game, Food.init.
  rewrite randomize_position_first_pass; [reflexivity|].
  constructor; [split; reflexivity | constructor].
Qed.

Lemma over_event_returns (g : Session) (e : event) :
  exists g', over_event src (S fuel) g e = Done g'.
Proof.
  destruct e as [|k|]; cbn [over_event]; try (eexists; reflexivity).
  destruct k; try (eexists; reflexivity).
  rewrite reset_game_first_pass. eexists; reflexivity.
Qed.

Lemma over_events_fresh (events : list event) :
  forall g,
    exists g', over_events src (S fuel) events g = Done g' /\
      (In (KEYDOWN K_r) events \/ fresh g -> fresh g').
Proof.
  induction events as [|e events IH]; intros g; cbn [over_events].
  - exists g. split; [reflexivity|]. intros [[] | H]; exact H.
  - destruct (over_event_returns g e) as [g1 He]. rewrite He. cbn [bind].
    destruct (IH g1) as [g' [Hrun Hfresh]]. exists g'. split; [exact Hrun|].
    intros Hcase. apply Hfresh.
    destruct (event_eq_dec e (KEYDOWN K_r)) as [-> | Hne].
    + right. cbn [over_event] in He. rewrite reset_game_first_pass in He.
      apply Done_inj in He. subst g1. unfold fresh. cbn [snake game_active
        game_over_state food Food.position].
      repeat split. apply sample_in_grid.
    + destruct Hcase as [[Heq | Hin] | Hf].
      * congruence.
      * left. exact Hin.
      * right. destruct (over_event_keeps src (S fuel) g e Hne)
          as [g2 [He2 [K1 [K2 [K3 [K4 _]]]]]].
        rewrite He in He2. apply Done_inj in He2. subst g2.
        unfold fresh in *. rewrite K1, K2, K3, K4. exact Hf.
Qed.

(** X14.  On the game-over screen a frame always returns (the loop of
    [randomize_position] stops at its first pass, the start cell being off
    the food grid), and if R was among the events the frame leaves the
    start of a new game: the snake [reset_game] builds (one cell at
    (390, 290), heading right, score 0), [game_active] true,
    [game_over_state] false, the food on a grid cell. *)
Theorem restart_from_game_over (events : list event) (g : Session) :
  game_active g = false ->
  exists g',
    frame src (S fuel) events g = Done g' /\
    (In (KEYDOWN K_r) events ->
       snake g' = Snake.make 1 [(390, 290)] (1, 0) 0 /\
       game_active g' = true /\ game_over_state g' = false /\
       In (Food.position (food g')) Food.grid_cells).
Proof.
  intros Hover. unfold frame. rewrite Hover.
  destruct (over_events_fresh events g) as [g' [Hrun Hfresh]].
  exists g'. split; [exact Hrun|].
  intros Hin. exact (Hfresh (or_introl Hin)).
Qed.

End Running.

Lemma running_after_a_frame_witness :
  running (mkSession (Snake.make 1 [(410, 290)] (1, 0) 0) (Food.make (0, 0))
             true false true 2%nat)
  = true && forallb (fun e => negb (is_quit e)) [KEYDOWN K_q; OTHER].
Proof.
  apply (running_after_a_frame sweep 0 [KEYDOWN K_q; OTHER]
           (mkSession (Snake.init 390 290) (Food.make (0, 0)) true false
              true 2%nat)).
  reflexivity.
Defined.

Lemma restart_from_game_over_witness :
  exists g',
    frame sweep 1 [KEYDOWN K_q; KEYDOWN K_r]
      (mkSession (Snake.make 1 [(810, 290)] (1, 0) 0) (Food.make (0, 0))
         false true true 2%nat) = Done g' /\
    game_active g' = true.
Proof.
  destruct (restart_from_game_over sweep 0 [KEYDOWN K_q; KEYDOWN K_r]
              (mkSession (Snake.make 1 [(810, 290)] (1, 0) 0) (Food.make (0, 0))
                 false true true 2%nat) eq_refl)
    as [g' [Hframe Hfresh]].
  exists g'. split; [exact Hframe|].
  apply Hfresh. right. left. reflexivity.
Defined.

(** * More on reachable sessions *)

Lemma change_direction_direction (s : Snake.t) (d : point) :
  Snake.direction (Snake.change_direction s d) = Snake.direction s \/
  Snake.direction (Snake.change_direction s d) = d.
Proof.
  unfold Snake.change_direction. destruct (point_eqb _ _); [left | right];
    reflexivity.
Qed.

Lemma key_direction_cardinal (k : key) (d : point) :
  key_direction k = Some d -> cardinal d.
Proof.
  unfold cardinal. destruct k; cbn; intros [= <-]; tauto.
Qed.

Lemma active_events_cardinal (events : list event) :
  forall g,
    cardinal (Snake.direction (snake g)) ->
    cardinal (Snake.direction (snake (fold_left active_event events g))).
Proof.
  induction events as [|e events IH]; intros g Hg; cbn [fold_left];
    [exact Hg|].
  apply IH. destruct e as [|k|]; [exact Hg | | exact Hg].
  rewrite active_event_key. destruct (key_direction k) as [d|] eqn:Hk;
    [|exact Hg].
  cbn [set_snake snake].
  destruct (change_direction_direction (snake g) d) as [-> | ->];
    [exact Hg | exact (key_direction_cardinal k d Hk)].
Qed.

Section Settled.

Variables (src : Random.source) (fuel : nat).

(** A frame of play on a one-cell snake that has eaten nothing. *)
Lemma active_frame_single (events : list event) (g : Session) (head : point) :
  unfed g ->
  game_active g = true ->
  Snake.positions (snake g) = [head] ->
  exists s,
    Snake.positions s
      = [advance 1 (Snake.direction (snake (fold_left active_event events g)))
           head] /\
    Snake.direction s
      = Snake.direction (snake (fold_left active_event events g)) /\
    frame src fuel events g
      = Done (if on_screen
                   (advance 1
                      (Snake.direction
                         (snake (fold_left active_event events g))) head)
              then set_snake (fold_left active_event events g) s
              else end_game (set_snake (fold_left active_event events g) s)).
Proof.
  intros [[Hsn Hfo] [_ Hlen]] Hact Hp.
  destruct (active_events_keep events g) as [Kf [_ [_ [_ [Kp [Kl _]]]]]].
  rewrite Hp in Kp. rewrite Hlen in Kl.
  set (g0 := fold_left active_event events g) in *.
  pose proof (move_cons (snake g0) head [] Kp) as Hm.
  destruct (move_positions _ _ head [] Kp Hm) as [Hp' Hd'].
  assert (Hlat : Forall on_snake_lattice (Snake.positions (snake g0)))
    by (rewrite Kp, <- Hp; exact Hsn).
  pose proof (move_on_snake_lattice _ _ Hlat Hm) as Hlat'.
  match type of Hm with _ = Done ?r => set (s := r) in * end.
  assert (Htrim : (body_length (snake g0) + 1 >? Snake.length (snake g0)) = true).
  { unfold body_length. rewrite Kp, Kl. reflexivity. }
  rewrite Htrim in Hp'. cbn [removelast] in Hp'.
  set (nh := advance 1 (Snake.direction (snake g0)) head) in *.
  assert (Hhead : Snake.get_head_position s = Done nh).
  { unfold Snake.get_head_position. rewrite Hp'. reflexivity. }
  exists s. split; [exact Hp'|]. split; [exact Hd'|].
  rewrite (active_frame_cases src fuel events g s nh Hact Hm Hhead).
  fold g0. unfold survives. rewrite Hp'. cbn [tl point_in negb].
  rewrite andb_true_r. destruct (on_screen nh); [|reflexivity].
  apply (food_check_misses src fuel (set_snake g0 s) nh).
  - exact Hhead.
  - rewrite Hp' in Hlat'. apply Forall_inv in Hlat'. exact Hlat'.
  - cbn [set_snake food]. rewrite Kf. exact Hfo.
Qed.

Lemma reset_game_settled (run : bool) (cur : nat) (g : Session) :
  reset_game src fuel run cur = Done g -> settled g.
Proof.
  intros H. destruct (reset_game_inv src fuel run cur g H) as [f [cur' [Hrun ->]]].
  unfold settled. cbn [snake food game_active game_over_state].
  split; [|split].
  - exists (start_x, start_y). repeat split.
  - right; right; right. reflexivity.
  - destruct (randomize_position_inv _ _ _ _ _ _ Hrun) as [c [-> _]].
    apply sample_in_grid.
Qed.

Lemma over_events_settled (events : list event) :
  forall g g',
    settled g -> over_events src fuel events g = Done g' -> settled g'.
Proof.
  induction events as [|e events IH]; intros g g' Hg Hrun;
    cbn [over_events] in Hrun.
  - apply Done_inj in Hrun. subst g'. exact Hg.
  - bind_inv Hrun as g1 with He. apply (IH g1 g'); [|exact Hrun].
    destruct (event_eq_dec e (KEYDOWN K_r)) as [-> | Hr].
    + cbn [over_event] in He. exact (reset_game_settled _ _ _ He).
    + destruct (over_event_keeps src fuel g e Hr)
        as [g2 [He2 [K1 [K2 [K3 [K4 _]]]]]].
      rewrite He in He2. apply Done_inj in He2. subst g2.
      unfold settled in *. rewrite K1, K2, K3, K4. exact Hg.
Qed.

Lemma frame_settled (events : list event) (g g' : Session) :
  unfed g -> settled g -> frame src fuel events g = Done g' -> settled g'.
Proof.
  intros Hun [[head [Hp [Ha Ho]]] [Hc Hf]] Hframe.
  destruct (game_active g) eqn:Hact.
  - destruct (active_frame_single events g head Hun Hact Hp)
      as [s [Hp' [Hd' Hrun]]].
    rewrite Hrun in Hframe. apply Done_inj in Hframe.
    destruct (active_events_keep events g) as [Kf [_ [Ka [Ko _]]]].
    pose proof (active_events_cardinal events g Hc) as Hc'.
    set (g0 := fold_left active_event events g) in *.
    set (nh := advance 1 (Snake.direction (snake g0)) head) in *.
    unfold settled. subst g'. destruct (on_screen nh) eqn:Hon.
    + cbn [set_snake snake food game_active game_over_state].
      split; [|split].
      * exists nh. rewrite Hon, Ka, Hact, Ko, Ho, <- Ha. repeat split.
        exact Hp'.
      * rewrite Hd'. exact Hc'.
      * rewrite Kf. exact Hf.
    + cbn [end_game set_snake snake food game_active game_over_state].
      split; [|split].
      * exists nh. rewrite Hon. repeat split. exact Hp'.
      * rewrite Hd'. exact Hc'.
      * rewrite Kf. exact Hf.
  - unfold frame in Hframe. rewrite Hact in Hframe.
    apply (over_events_settled events g g'); [|exact Hframe].
    split; [|split; assumption]. exists head.
    repeat split; try assumption. rewrite Hact. exact Ha.
Qed.

End Settled.

Lemma reachable_settled (src : Random.source) (g : Session) :
  reachable src g -> settled g.
Proof.
  intros Hreach.
  induction Hreach as [fuel cur g Hstart | fuel events g g' Hreach IH _ Hframe].
  - exact (reset_game_settled src fuel true cur g Hstart).
  - exact (frame_settled src fuel events g g'
             (reachable_unfed src g Hreach) IH Hframe).
Qed.

(** X15.  In every session the program reaches the snake has exactly one
    cell, the game is active exactly when that cell is on screen, and
    [game_over_state] is the negation of [game_active]: a game only ever
    ends at the wall, and the "Game Over" text is shown in every frame of
    the game-over branch. *)
Theorem game_ends_only_at_the_wall (src : Random.source) (g : Session) :
  reachable src g ->
  exists head,
    Snake.positions (snake g) = [head] /\
    game_active g = on_screen head /\
    game_over_state g = negb (game_active g).
Proof.
  intros Hreach.
  destruct (reachable_settled src g Hreach) as [[head [Hp [Ha Ho]]] _].
  exists head. rewrite Ha. repeat split; assumption.
Qed.

Lemma game_ends_only_at_the_wall_witness :
  exists head,
    Snake.positions (Snake.make 1 [(390, 270)] (0, -1) 0) = [head] /\
    true = on_screen head.
Proof.
  destruct (game_ends_only_at_the_wall sweep
              (mkSession (Snake.make 1 [(390, 270)] (0, -1) 0)
                 (Food.make (0, 0)) true false true 2%nat))
    as [head [Hp [Ha _]]].
  - apply (reach_frame sweep 0 [KEYDOWN K_UP]
             (mkSession (Snake.init 390 290) (Food.make (0, 0))
                true false true 2%nat)).
    + apply (reach_startup sweep 1 0). reflexivity.
    + reflexivity.
    + reflexivity.
  - exists head. split; [exact Hp | exact Ha].
Defined.

(** X16.  The loop never fails: start-up returns, and from every session
    the program reaches a frame returns whatever the events, with no
    [IndexError] and with the loop of [randomize_position] stopping at its
    first pass whatever the generator; during play the frame does not even
    enter that loop. *)
Theorem the_loop_never_fails :
  (forall src fuel cur, exists g, startup src (S fuel) cur = Done g) /\
  (forall src fuel events g,
     reachable src g ->
     exists g', frame src (S fuel) events g = Done g') /\
  (forall src events g,
     reachable src g -> game_active g = true ->
     exists g', frame src 0 events g = Done g').
Proof.
  split; [|split].
  - intros src fuel cur. unfold startup. rewrite reset_game_first_pass.
    eexists. reflexivity.
  - intros src fuel events g Hreach.
    destruct (reachable_settled src g Hreach) as [[head [Hp _]] _].
    destruct (game_active g) eqn:Hact.
    + destruct (active_frame_single src (S fuel) events g head
                  (reachable_unfed src g Hreach) Hact Hp) as [s [_ [_ Hrun]]].
      eexists. exact Hrun.
    + unfold frame. rewrite Hact.
      destruct (over_events_fresh src fuel events g) as [g' [Hrun _]].
      exists g'. exact Hrun.
  - intros src events g Hreach Hact.
    destruct (reachable_settled src g Hreach) as [[head [Hp _]] _].
    destruct (active_frame_single src 0%nat events g head
                (reachable_unfed src g Hreach) Hact Hp) as [s [_ [_ Hrun]]].
    eexists. exact Hrun.
Qed.

Lemma the_loop_never_fails_witness :
  exists g',
    frame sweep 1 [KEYDOWN K_DOWN; QUIT]
      (mkSession (Snake.init 390 290) (Food.make (0, 0)) true false true 2%nat)
    = Done g'.
Proof.
  apply (proj1 (proj2 the_loop_never_fails) sweep 0%nat [KEYDOWN K_DOWN; QUIT]).
  apply (reach_startup sweep 1 0). reflexivity.
Defined.

(** X17.  In every session the program reaches the snake heads along an
    axis (up, down, left or right), and a frame of play moves its one cell
    by exactly one block in the direction it has after the key presses. *)
Theorem play_moves_one_cell (src : Random.source) (g : Session) :
  reachable src g ->
  cardinal (Snake.direction (snake g)) /\
  (forall fuel events g',
     game_active g = true ->
     frame src fuel events g = Done g' ->
     exists head d,
       cardinal d /\
       Snake.positions (snake g) = [head] /\
       Snake.positions (snake g')
         = [(fst head + fst d * SNAKE_BLOCK_SIZE,
             snd head + snd d * SNAKE_BLOCK_SIZE)] /\
       Snake.direction (snake g') = d).
Proof.
  intros Hreach.
  destruct (reachable_settled src g Hreach) as [[head [Hp _]] [Hc _]].
  split; [exact Hc|].
  intros fuel events g' Hact Hframe.
  destruct (active_frame_single src fuel events g head
              (reachable_unfed src g Hreach) Hact Hp) as [s [Hp' [Hd' Hrun]]].
  rewrite Hrun in Hframe. apply Done_inj in Hframe.
  exists head, (Snake.direction (snake (fold_left active_event events g))).
  split; [exact (active_events_cardinal events g Hc)|].
  split; [exact Hp|].
  rewrite <- advance_one.
  subst g'. destruct (on_screen _); cbn [end_game set_snake snake];
    split; assumption.
Qed.

Lemma play_moves_one_cell_witness :
  cardinal (Snake.direction (Snake.init 390 290)) /\
  exists head d,
    cardinal d /\
    Snake.positions (Snake.make 1 [(390, 270)] (0, -1) 0)
      = [(fst head + fst d * SNAKE_BLOCK_SIZE,
          snd head + snd d * SNAKE_BLOCK_SIZE)].
Proof.
  destruct (play_moves_one_cell sweep
              (mkSession (Snake.init 390 290) (Food.make (0, 0))
                 true false true 2%nat)) as [Hc Hstep].
  - apply (reach_startup sweep 1 0). reflexivity.
  - split; [exact Hc|].
    destruct (Hstep 0%nat [KEYDOWN K_UP]
                (mkSession (Snake.make 1 [(390, 270)] (0, -1) 0)
                   (Food.make (0, 0)) true false true 2%nat)
                eq_refl eq_refl) as [head [d [Hd [_ [Hp' _]]]]].
    exists head, d. split; [exact Hd | exact Hp'].
Defined.
